(** * Voice-interaction examples of openai-realtime-api-beta

    A shallow embedding of the example scripts

      - [examples/advanced_mood.js]        (module [AdvancedMood])
      - [examples/mood.mjs], first script   (module [Mood])
      - [examples/mood.mjs], second script  (module [VoiceAssistant])
      - [examples/function_call_example.js] (module [FunctionCallExample])

    and the properties of their audio framing loop, tool handlers,
    conversation reset, playback and connection code.

    JavaScript values are modelled by the inductive [Value]; the effects of
    a handler (console output, calls of local functions, calls into the
    RealtimeClient library, timers) are recorded in a [Trace].  The
    RealtimeClient, mic and speaker packages are not part of the examples:
    what the scripts call on them is taken as a parameter.  So are the two
    built-ins of the JavaScript runtime whose tables the scripts rely on,
    [String.prototype.toLowerCase] and the printing of numbers: they are
    the fields of the class [Runtime], with the facts about them that the
    statements use. *)

From Stdlib Require Import String Ascii Numbers.DecimalString.
From Stdlib Require Import List Arith Lia Bool ZArith.
From Equations Require Import Equations.
Import ListNotations.

Local Open Scope string_scope.
Local Open Scope list_scope.

(** ** JavaScript values *)

(** The values the scripts inspect.  [Num] holds integral numbers. *)
#[local] Set Warnings "-register-all".
Inductive Value : Type :=
| Undefined
| Null
| Bool (b : bool)
| Num (n : Z)
| Str (s : string)
| Arr (elems : list Value)
| Obj (props : list (string * Value)).

(** An exception value: the message of the error that was thrown. *)
Definition Error := string.

(** The result of running a block that may throw. *)
Inductive Completion (A : Type) : Type :=
| Return (a : A)
| Throw (e : Error).
Arguments Return {A} a.
Arguments Throw {A} e.

(** Sequencing of blocks that may throw. *)
Definition bind {A B : Type} (c : Completion A) (k : A -> Completion B)
  : Completion B :=
  match c with
  | Return a => k a
  | Throw e => Throw e
  end.

Notation "x <- c ;; k" := (bind c (fun x => k))
  (at level 61, c at next level, right associativity).

(** [ToBoolean]: the test of [x ? a : b], [x && y] and [!x]. *)
Definition truthy (v : Value) : bool :=
  match v with
  | Undefined | Null => false
  | Bool b => b
  | Num n => negb (n =? 0)%Z
  | Str s => negb (s =? "")
  | Arr _ | Obj _ => true
  end.

Definition decimal (n : nat) : string :=
  NilEmpty.string_of_uint (Nat.to_uint n).

Definition decimalZ (n : Z) : string :=
  NilEmpty.string_of_int (Z.to_int n).

(** Property lookup on an object's own properties, first match. *)
Fixpoint lookup (props : list (string * Value)) (key : string) : Value :=
  match props with
  | [] => Undefined
  | (k, v) :: rest => if k =? key then v else lookup rest key
  end.

(** [o.key] for a value [o] that is neither [undefined] nor [null]
    (reading a property of those throws a TypeError).  Primitives and
    arrays carry none of the properties the scripts read. *)
Definition get (o : Value) (key : string) : Completion Value :=
  match o with
  | Undefined => Throw "TypeError: Cannot read properties of undefined"
  | Null => Throw "TypeError: Cannot read properties of null"
  | Obj props => Return (lookup props key)
  | _ => Return Undefined
  end.

(** [o.key = v] on an object's own properties: an existing property is
    replaced in place, a new one is added at the end. *)
Fixpoint assign (props : list (string * Value)) (key : string) (v : Value)
  : list (string * Value) :=
  match props with
  | [] => [(key, v)]
  | (k, w) :: rest =>
      if k =? key then (k, v) :: rest else (k, w) :: assign rest key v
  end.

(** [o.key = v] in a module, which is strict code: assigning to a property
    of [undefined], [null] or a primitive throws.  Named properties of an
    array are not represented; its elements stay as they are. *)
Definition set (o : Value) (key : string) (v : Value) : Completion Value :=
  match o with
  | Obj props => Return (Obj (assign props key v))
  | Arr _ => Return o
  | Undefined => Throw "TypeError: Cannot set properties of undefined"
  | Null => Throw "TypeError: Cannot set properties of null"
  | _ => Throw "TypeError: Cannot create property"
  end.

(** [Array.isArray]. *)
Definition isArray (v : Value) : bool :=
  match v with
  | Arr _ => true
  | _ => false
  end.

(** [v === 'text'] for a string literal. *)
Definition strict_eq_str (v : Value) (text : string) : bool :=
  match v with
  | Str s => s =? text
  | _ => false
  end.

(** ** Strings and the runtime's built-ins

    A string of the scripts is modelled by the string of its code units
    when these are all below 128, and by an encoding of it otherwise. *)

Fixpoint ascii_only (s : string) : bool :=
  match s with
  | EmptyString => true
  | String c rest => (nat_of_ascii c <? 128)%nat && ascii_only rest
  end.

(** Lower-casing of the letters A-Z, every other code unit kept. *)
Definition lower_ascii (c : ascii) : ascii :=
  let n := nat_of_ascii c in
  if ((65 <=? n) && (n <=? 90))%nat then ascii_of_nat (n + 32) else c.

Fixpoint ascii_lower (s : string) : string :=
  match s with
  | EmptyString => EmptyString
  | String c rest => String (lower_ascii c) (ascii_lower rest)
  end.

(** The built-ins of the JavaScript runtime that the scripts call and that
    rest on tables of the runtime.

    [toLowerCase] is [String.prototype.toLowerCase], which follows the
    Unicode case mappings: on a string of code units below 128 it is
    [ascii_lower], and only the empty string is lower-cased to the empty
    string.  Nothing else is assumed of it.

    [NumberToString] is the printing of a number, as a template literal
    applies it: an integer of magnitude up to 2^53 is printed by its
    decimal digits. *)
Class Runtime := {
  toLowerCase : string -> string;
  toLowerCase_ascii :
    forall s : string, ascii_only s = true -> toLowerCase s = ascii_lower s;
  toLowerCase_nonempty :
    forall s : string, toLowerCase s = "" -> s = "";
  NumberToString : Z -> string;
  NumberToString_safe :
    forall n : Z, (Z.abs n <= 2 ^ 53)%Z -> NumberToString n = decimalZ n
}.

Lemma ascii_lower_nonempty (s : string) : ascii_lower s = "" -> s = "".
Proof. destruct s; [reflexivity | discriminate]. Qed.

(** A runtime that lower-cases the letters A-Z only and prints every
    integer by its digits: it agrees with every runtime on strings of code
    units below 128 and on integers up to 2^53. *)
Definition ascii_runtime : Runtime :=
  {| toLowerCase := ascii_lower;
     toLowerCase_ascii := fun s _ => eq_refl;
     toLowerCase_nonempty := ascii_lower_nonempty;
     NumberToString := decimalZ;
     NumberToString_safe := fun n _ => eq_refl |}.

Section Builtins.

Context {R : Runtime}.

(** Whether an object has an own property of that name. *)
Definition has_own (props : list (string * Value)) (key : string) : bool :=
  existsb (fun kv => fst kv =? key) props.

(** [ToString], as a template literal applies it.  An array is joined
    with commas, [undefined] and [null] elements printing as nothing.  An
    object prints through [Object.prototype.toString] unless it has an own
    [toString] property: the properties of a [Value] are data, which
    cannot be called, and the [valueOf] tried next, own or inherited, does
    not give a primitive either, so the conversion throws. *)
Fixpoint ToString (v : Value) : Completion string :=
  match v with
  | Undefined => Return "undefined"
  | Null => Return "null"
  | Bool true => Return "true"
  | Bool false => Return "false"
  | Num n => Return (NumberToString n)
  | Str s => Return s
  | Arr elems =>
      (fix join (l : list Value) : Completion string :=
         match l with
         | [] => Return ""
         | x :: r =>
             sx <- match x with
                   | Undefined | Null => Return ""
                   | _ => ToString x
                   end ;;
             match r with
             | [] => Return sx
             | _ :: _ => sr <- join r ;; Return (sx ++ "," ++ sr)%string
             end
         end) elems
  | Obj props =>
      if has_own props "toString"
      then Throw "TypeError: Cannot convert object to primitive value"
      else Return "[object Object]"
  end.

(** [x.toLowerCase()] on a value: only strings have the method. *)
Definition call_toLowerCase (v : Value) : Completion string :=
  match v with
  | Str s => Return (toLowerCase s)
  | Undefined | Null =>
      Throw "TypeError: Cannot read properties of undefined"
  | _ => Throw "TypeError: toLowerCase is not a function"
  end.

End Builtins.

(** ** Effects *)

Definition Buffer := list Byte.byte.

(** [new Int16Array(buffer, byteOffset, length)]: a view of [length]
    16-bit elements, that is of [2 * length] bytes, on the memory that
    starts at the given offset.  It is modelled by the bytes it covers.
    The scripts make it from a chunk cut at a multiple of [chunkSize] out
    of the buffer that [Buffer.concat] has just allocated, so the offset is
    even, as the constructor requires. *)
Record Int16Array := mkInt16Array {
  bytes : Buffer;
  length16 : nat
}.

Definition new_Int16Array (chunk : Buffer) (len : nat) : Int16Array :=
  {| bytes := firstn (2 * len) chunk; length16 := len |}.

Inductive LogArg : Type :=
| Text (s : string)
| Shown (v : Value)
| Caught (e : Error).

(** What a handler does besides computing its result: console output,
    the call of one of the script's own functions, calls into the
    RealtimeClient, the assignment to [client.conversation.items], and the
    timer that [main] arms. *)
Inductive Event : Type :=
| ConsoleLog (args : list LogArg)
| ConsoleError (args : list LogArg)
| Call (fn : string)
| AppendInputAudio (frame : Int16Array) (thrown : option Error)
| Connect (thrown : option Error)
| StartAudioStream
| SetTimeout (callback : string) (ms : Z)
| AssignItems (v : Value).

Definition Trace := list Event.

(** ** The audio framing loop

    [micInputStream.on('data', ...)] of advanced_mood.js and of the first
    script of mood.mjs, and [processAudioData] of the second script of
    mood.mjs, share one loop.  They differ in the text they print, which is
    gathered in [FramerText].  The loop is written once, for a frame size
    [frameSize] that is not zero, and used at the scripts'
    [const chunkSize = 4800]. *)

Record FramerText := mkFramerText {
  received_before : string;
  received_after : string;
  sending : option string;
  send_failed : string
}.

Record FramerState (ClientState : Type) := mkFramerState {
  audioBuffer : Buffer;
  client : ClientState
}.
Arguments mkFramerState {ClientState} _ _.
Arguments audioBuffer {ClientState} _.
Arguments client {ClientState} _.

Section Framer.

Variable frameSize : nat.
Hypothesis frameSize_pos : 0 < frameSize.

(** The RealtimeClient: its state, and [client.appendInputAudio], which
    returns the client's next state and the error it threw, if any. *)
Variable ClientState : Type.
Variable appendInputAudio :
  ClientState -> Int16Array -> ClientState * option Error.
Variable text : FramerText.

(** [try { client.appendInputAudio(int16Array); }
     catch (error) { console.error(..., error); }] *)
Definition try_append (c : ClientState) (int16Array : Int16Array)
  : ClientState * Trace :=
  match appendInputAudio c int16Array with
  | (c', None) => (c', [AppendInputAudio int16Array None])
  | (c', Some error) =>
      (c', [AppendInputAudio int16Array (Some error);
            ConsoleError [Text (send_failed text); Caught error]])
  end.

Definition log_sending : Trace :=
  match sending text with
  | Some msg => [ConsoleLog [Text msg]]
  | None => []
  end.

(** [while (audioBuffer.length >= chunkSize) { ... }] *)
Equations? frame_loop (st : FramerState ClientState)
  : FramerState ClientState * Trace
  by wf (length (audioBuffer st)) lt :=
  frame_loop st with le_lt_dec frameSize (length (audioBuffer st)) => {
    | left _ =>
        let chunk := firstn frameSize (audioBuffer st) in
        let rest := skipn frameSize (audioBuffer st) in
        let int16Array := new_Int16Array chunk (length chunk / 2) in
        let '(c', sent) := try_append (client st) int16Array in
        let '(st', later) :=
          frame_loop {| audioBuffer := rest; client := c' |} in
        (st', log_sending ++ sent ++ later)
    | right _ => (st, [])
  }.
Proof.
  subst rest. rewrite length_skipn. lia.
Qed.

(** [audioBuffer = Buffer.concat([audioBuffer, data]);] and the loop:
    the body of [processAudioData] in the second script of mood.mjs, and
    what follows the first line of the listener in the other two. *)
Definition processAudioData (st : FramerState ClientState) (data : Buffer)
  : FramerState ClientState * Trace :=
  frame_loop {| audioBuffer := audioBuffer st ++ data; client := client st |}.

(** The ['data'] listener: it prints the length of the chunk it is given,
    then frames. *)
Definition on_data (st : FramerState ClientState) (data : Buffer)
  : FramerState ClientState * Trace :=
  let received :=
    ConsoleLog [Text (received_before text ++ decimal (length data)
                      ++ received_after text)%string] in
  let '(st', sent) := processAudioData st data in
  (st', received :: sent).

(** A run of ['data'] events, starting from [st]. *)
Fixpoint feed (st : FramerState ClientState) (chunks : list Buffer)
  : FramerState ClientState * Trace :=
  match chunks with
  | [] => (st, [])
  | data :: more =>
      let '(st1, t1) := on_data st data in
      let '(st2, t2) := feed st1 more in
      (st2, t1 ++ t2)
  end.

End Framer.

(** The frames handed to [client.appendInputAudio], in order. *)
Fixpoint frames (t : Trace) : list Int16Array :=
  match t with
  | [] => []
  | AppendInputAudio frame _ :: rest => frame :: frames rest
  | _ :: rest => frames rest
  end.

(** The frames whose send threw. *)
Fixpoint failed_frames (t : Trace) : list Int16Array :=
  match t with
  | [] => []
  | AppendInputAudio frame (Some _) :: rest => frame :: failed_frames rest
  | _ :: rest => failed_frames rest
  end.

(** What a frame of the loop looks like: [frameSize] bytes, seen as half as
    many 16-bit samples. *)
Definition well_framed (frameSize : nat) (f : Int16Array) : Prop :=
  length (bytes f) = frameSize /\ length16 f = frameSize / 2.

(** [const chunkSize = 4800;] *)
Definition chunkSize : nat := 4800.

Lemma chunkSize_pos : 0 < chunkSize.
Proof. apply Nat.lt_0_succ. Qed.

Lemma chunkSize_even : 2 * (chunkSize / 2) = chunkSize.
Proof. vm_compute. reflexivity. Qed.

(** The listeners that frame the microphone stream, one per script. *)
Section FramerInstances.

Variable ClientState : Type.
Variable appendInputAudio :
  ClientState -> Int16Array -> ClientState * option Error.

(** advanced_mood.js, [micInputStream.on('data', ...)]. *)
Definition advanced_mood_text : FramerText :=
  {| received_before := "Chunk audio reçu (";
     received_after := " octets).";
     sending := None;
     send_failed := "Erreur lors de l'envoi d'un chunk audio :" |}.

Definition advanced_mood_on_data :=
  on_data chunkSize chunkSize_pos ClientState appendInputAudio
          advanced_mood_text.

(** mood.mjs, first script, [micInputStream.on('data', ...)]. *)
Definition mood_text : FramerText :=
  {| received_before := "Received audio chunk (";
     received_after := " bytes).";
     sending := None;
     send_failed := "Error sending audio chunk:" |}.

Definition mood_on_data :=
  on_data chunkSize chunkSize_pos ClientState appendInputAudio mood_text.

(** mood.mjs, second script: the listener prints and calls
    [processAudioData], whose outer [try] has nothing left to catch:
    what [appendInputAudio] throws is caught inside the loop. *)
Definition voice_assistant_text : FramerText :=
  {| received_before := "Received audio data chunk (";
     received_after := " bytes).";
     sending := Some "Sending an audio chunk to the OpenAI Realtime API...";
     send_failed := "Error sending audio chunk:" |}.

Definition voice_assistant_on_data :=
  on_data chunkSize chunkSize_pos ClientState appendInputAudio
          voice_assistant_text.

End FramerInstances.

(** ** Conversation reset *)

(** [client.conversation && Array.isArray(client.conversation.items)]:
    the right operand is evaluated only when the left one is truthy. *)
Definition can_reset (client : Value) : Completion bool :=
  conversation <- get client "conversation" ;;
  if truthy conversation then
    conversation <- get client "conversation" ;;
    items <- get conversation "items" ;;
    Return (isArray items)
  else Return false.

(** [client.conversation.items = [];]  The conversation object is changed
    in place; the client keeps holding it. *)
Definition reset_items (client : Value) : Completion Value :=
  conversation <- get client "conversation" ;;
  conversation <- set conversation "items" (Arr []) ;;
  set client "conversation" conversation.

(** The listener of ['conversation.item.completed'] in advanced_mood.js and
    in the first script of mood.mjs, which differ in the two lines they
    print.  It is given the client and the event's [item], and returns the
    client afterwards, its effects, and whether it threw. *)
Definition reset_on_function_call (completed_line reset_line : string)
  (client item : Value) : Value * Trace * Completion unit :=
  match get item "type" with
  | Throw e => (client, [], Throw e)
  | Return type =>
      if strict_eq_str type "function_call" then
        let shown := [ConsoleLog [Text completed_line; Shown item]] in
        match can_reset client with
        | Throw e => (client, shown, Throw e)
        | Return false => (client, shown, Return tt)
        | Return true =>
            match reset_items client with
            | Throw e => (client, shown, Throw e)
            | Return client' =>
                (client',
                 shown ++ [AssignItems (Arr []);
                           ConsoleLog [Text reset_line]],
                 Return tt)
            end
        end
      else (client, [], Return tt)
  end.

(** The number of times a trace assigns to [client.conversation.items]. *)
Fixpoint resets (t : Trace) : nat :=
  match t with
  | [] => 0
  | AssignItems _ :: rest => S (resets rest)
  | _ :: rest => resets rest
  end.

(** [client.conversation.items], for reading the state in a statement;
    [Undefined] where the script itself could not read it. *)
Definition conversation_items (client : Value) : Value :=
  match (conversation <- get client "conversation" ;;
         get conversation "items") with
  | Return items => items
  | Throw _ => Undefined
  end.

(** [client.conversation.items.length], when the items are an array. *)
Definition item_count (client : Value) : option nat :=
  match conversation_items client with
  | Arr elems => Some (length elems)
  | _ => None
  end.

(** [item.type === 'function_call'] *)
Definition is_function_call (item : Value) : bool :=
  match get item "type" with
  | Return type => strict_eq_str type "function_call"
  | Throw _ => false
  end.

(** A run of ['conversation.item.completed'] events through a listener. *)
Fixpoint completed_run
  (listener : Value -> Value -> Value * Trace * Completion unit)
  (client : Value) (items : list Value) : Value * Trace :=
  match items with
  | [] => (client, [])
  | item :: more =>
      let '(client1, t1, _) := listener client item in
      let '(client2, t2) := completed_run listener client1 more in
      (client2, t1 ++ t2)
  end.

(** ** Tool handlers and scripts *)

(** The names of the script's own functions that a trace calls. *)
Fixpoint calls (t : Trace) : list string :=
  match t with
  | [] => []
  | Call fn :: rest => fn :: calls rest
  | _ :: rest => calls rest
  end.

(** A local function: its call, then the line it prints. *)
Definition local_function (name line : string) : Trace :=
  [Call name; ConsoleLog [Text line]].

Module AdvancedMood.

Definition yesResponse : Trace :=
  local_function "yesResponse"
    "yesResponse() appelée : Le robot répond OUI !".
Definition noResponse : Trace :=
  local_function "noResponse"
    "noResponse() appelée : Le robot répond NON !".
Definition dontKnowResponse : Trace :=
  local_function "dontKnowResponse"
    "dontKnowResponse() appelée : Le robot répond JE NE SAIS PAS !".
Definition happy : Trace :=
  local_function "happy" "happy() appelée : Le robot est heureux !".
Definition sad : Trace :=
  local_function "sad" "sad() appelée : Le robot est triste.".
Definition annoyed : Trace :=
  local_function "annoyed"
    "annoyed() appelée : Le robot est agacé par Matthieu !".
Definition fearful : Trace :=
  local_function "fearful"
    "fearful() appelée : Le robot a peur de Gaëlle !".
Definition proud : Trace :=
  local_function "proud" "proud() appelée : Le robot est fier de Coco !".
Definition laugh : Trace :=
  local_function "laugh"
    "laugh() appelée : Le robot rigole à propos de Steve !".
Definition friendly : Trace :=
  local_function "friendly"
    "friendly() appelée : Le robot est affectueux et amical avec Anne-Cha et Annaëlle !".

(** [const normalized = action ? action.toLowerCase() : "none";] *)
Definition normalized {R : Runtime} (action : Value) : Completion string :=
  if truthy action then call_toLowerCase action else Return "none".

(** The [default:] branch of the switch. *)
Definition no_action (normalized : string) : Trace :=
  [ConsoleLog [Text "Aucune action pertinente détectée (action =";
               Shown (Str normalized); Text ")"]].

(** [switch (normalized) { case "yes": ... default: ... }] *)
Definition dispatch (normalized : string) : Trace :=
  if normalized =? "yes" then yesResponse
  else if normalized =? "no" then noResponse
  else if normalized =? "idk" then dontKnowResponse
  else if normalized =? "happy" then happy
  else if normalized =? "sad" then sad
  else if normalized =? "annoyed" then annoyed
  else if normalized =? "fearful" then fearful
  else if normalized =? "proud" then proud
  else if normalized =? "laugh" then laugh
  else if normalized =? "friendly" then friendly
  else no_action normalized.

(** The function given to [client.addTool]: its effects and the value
    its promise settles with.  The template literal of its first line is
    evaluated before anything is printed. *)
Definition action_handler {R : Runtime} (action : Value)
  : Trace * Completion Value :=
  match ToString action with
  | Throw e => ([], Throw e)
  | Return shown =>
      let invoked :=
        ConsoleLog [Text ("Outil action_handler appelé avec action: "
                          ++ shown)%string] in
      match normalized action with
      | Throw e => ([invoked], Throw e)
      | Return normalized =>
          (invoked :: dispatch normalized,
           Return (Obj [("status", Str "processed");
                        ("action", Str normalized)]))
      end
  end.

Definition on_item_completed
  : Value -> Value -> Value * Trace * Completion unit :=
  reset_on_function_call
    "Appel de fonction terminé :"
    "Le contexte de conversation a été réinitialisé pour permettre de nouvelles interactions.".

(** [async function main()]: [connect] is the RealtimeClient's and
    either resolves or rejects with an error. *)
Definition main (connect : option Error) : Trace :=
  match connect with
  | None =>
      [ConsoleLog [Text "Connexion à l'API OpenAI Realtime..."];
       Connect None;
       ConsoleLog [Text "Connecté à l'API."];
       StartAudioStream]
  | Some error =>
      [ConsoleLog [Text "Connexion à l'API OpenAI Realtime..."];
       Connect (Some error);
       ConsoleError [Text "Erreur lors de la connexion à l'API :";
                     Caught error]]
  end.

End AdvancedMood.

(** ** mood.mjs, first script *)

Module Mood.

Definition happy : Trace :=
  local_function "happy" "happy() called: The scene is detected as happy!".
Definition sad : Trace :=
  local_function "sad" "sad() called: The scene is detected as sad.".

(** [const normalizedMood = mood ? mood.toLowerCase() : "";] *)
Definition normalizedMood {R : Runtime} (mood : Value) : Completion string :=
  if truthy mood then call_toLowerCase mood else Return "".

Definition dispatch (normalizedMood : string) : Trace :=
  if normalizedMood =? "happy" then happy
  else if normalizedMood =? "sad" then sad
  else [ConsoleLog
          [Text "No strong emotion detected; no function is called."]].

(** The function given to [client.addTool]. *)
Definition mood_handler {R : Runtime} (mood : Value)
  : Trace * Completion Value :=
  match ToString mood with
  | Throw e => ([], Throw e)
  | Return shown =>
      let invoked :=
        ConsoleLog [Text ("Tool invoked with mood: " ++ shown)%string] in
      match normalizedMood mood with
      | Throw e => ([invoked], Throw e)
      | Return normalizedMood =>
          (invoked :: dispatch normalizedMood,
           Return (Obj [("status", Str "processed"); ("mood", mood)]))
      end
  end.

Definition on_item_completed
  : Value -> Value -> Value * Trace * Completion unit :=
  reset_on_function_call
    "Function call completed:"
    "Conversation context has been reset for new input.".

Definition main (connect : option Error) : Trace :=
  match connect with
  | None =>
      [ConsoleLog [Text "Connecting to OpenAI Realtime API..."];
       Connect None;
       ConsoleLog [Text "Connected to the API."];
       StartAudioStream]
  | Some error =>
      [ConsoleLog [Text "Connecting to OpenAI Realtime API..."];
       Connect (Some error);
       ConsoleError [Text "Error connecting to the API:"; Caught error]]
  end.

End Mood.

(** ** function_call_example.js *)

Module FunctionCallExample.

Definition happy : Trace :=
  local_function "happy" "happy() called: You are happy!".
Definition sad : Trace :=
  local_function "sad" "sad() called: You are sad.".

(** [const normalized = mood ? mood.toLowerCase() : "";] *)
Definition normalized {R : Runtime} (mood : Value) : Completion string :=
  if truthy mood then call_toLowerCase mood else Return "".

Definition dispatch (normalized : string) : Trace :=
  if normalized =? "happy" then happy
  else if normalized =? "sad" then sad
  else [ConsoleLog
          [Text "No strong emotion detected; no function is called."]].

Definition mood_handler {R : Runtime} (mood : Value)
  : Trace * Completion Value :=
  match ToString mood with
  | Throw e => ([], Throw e)
  | Return shown =>
      let invoked :=
        ConsoleLog [Text ("Tool invoked with mood: " ++ shown)%string] in
      match normalized mood with
      | Throw e => ([invoked], Throw e)
      | Return normalized =>
          (invoked :: dispatch normalized,
           Return (Obj [("status", Str "done"); ("mood", mood)]))
      end
  end.

End FunctionCallExample.

(** ** The owning process

    [main()] is called once at start-up, and again each time a timer that
    names it fires.  [boot main outcomes] is the trace of the process while
    the successive [client.connect()] calls settle as [outcomes] say. *)

Fixpoint armed (callback : string) (t : Trace) : bool :=
  match t with
  | [] => false
  | SetTimeout cb _ :: rest => (cb =? callback) || armed callback rest
  | _ :: rest => armed callback rest
  end.

Fixpoint boot (main : option Error -> Trace) (outcomes : list (option Error))
  : Trace :=
  match outcomes with
  | [] => []
  | connect :: later =>
      let t := main connect in
      if armed "main" t then t ++ boot main later else t
  end.

(** The delays of the timers a trace arms. *)
Fixpoint delays (t : Trace) : list Z :=
  match t with
  | [] => []
  | SetTimeout _ ms :: rest => ms :: delays rest
  | _ :: rest => delays rest
  end.

(** The outcomes of the connection attempts a trace makes. *)
Fixpoint attempts (t : Trace) : list (option Error) :=
  match t with
  | [] => []
  | Connect r :: rest => r :: attempts rest
  | _ :: rest => attempts rest
  end.

(** How many times a trace starts the microphone stream. *)
Fixpoint starts (t : Trace) : nat :=
  match t with
  | [] => 0
  | StartAudioStream :: rest => S (starts rest)
  | _ :: rest => starts rest
  end.

(** ** mood.mjs, second script *)

Module VoiceAssistant.

(** [async function main()], with its retry. *)
Definition main (connect : option Error) : Trace :=
  match connect with
  | None =>
      [ConsoleLog [Text "Connecting to the OpenAI Realtime API..."];
       Connect None;
       ConsoleLog [Text "Successfully connected to the API."];
       StartAudioStream]
  | Some error =>
      [ConsoleLog [Text "Connecting to the OpenAI Realtime API..."];
       Connect (Some error);
       ConsoleError [Text "Error connecting to OpenAI Realtime API:";
                     Caught error];
       ConsoleLog [Text "Retrying connection in 5 seconds..."];
       SetTimeout "main" 5000]
  end.

(** A [Speaker] instance: the streams that were piped into it, in the
    order of the [pipe] calls, and the number of its ['close']
    listeners. *)
Record Speaker := mkSpeaker {
  piped : list Buffer;
  close_listeners : nat
}.

(** [new Speaker({ channels: 1, bitDepth: 16, sampleRate: 24000 })] *)
Definition new_Speaker : Speaker :=
  {| piped := []; close_listeners := 0 |}.

(** [function playAudio(audioData)], on the module's [let speaker;]
    ([None] is [undefined] or [null]).  [Buffer.from(audioData.buffer)]
    holds the bytes of the array the response came in.  The listener of
    ['conversation.item.completed'] calls it with [item.formatted.audio]
    for each assistant message that carries audio.  The speaker package is
    taken not to throw; the [catch] would print what it throws. *)
Definition playAudio (speaker : option Speaker) (audioData : Int16Array)
  : option Speaker * Trace :=
  let preparing := ConsoleLog [Text "Preparing to play received audio..."] in
  let '(sp, created) :=
    match speaker with
    | None =>
        (new_Speaker,
         [ConsoleLog
            [Text "Speaker instance created for audio playback."]])
    | Some sp => (sp, [])
    end in
  let buffer := bytes audioData in
  let converted :=
    ConsoleLog [Text ("Audio data converted to Buffer (length: "
                      ++ decimal (length buffer) ++ " bytes).")%string] in
  (* readableStream.pipe(speaker); *)
  let sp := {| piped := piped sp ++ [buffer];
               close_listeners := close_listeners sp |} in
  let playing :=
    ConsoleLog [Text "Audio is now playing through your speakers."] in
  (* speaker.on('close', ...) *)
  let sp := {| piped := piped sp;
               close_listeners := S (close_listeners sp) |} in
  (Some sp, preparing :: created ++ [converted; playing]).

(** The speaker emits ['close']: each listener prints and sets
    [speaker = null]. *)
Definition on_close (speaker : option Speaker) : option Speaker * Trace :=
  match speaker with
  | None => (None, [])
  | Some sp =>
      (None,
       repeat
         (ConsoleLog
            [Text "Speaker closed after playback. Resetting speaker instance."])
         (close_listeners sp))
  end.

(** What happens to the playback path: a response with audio arrives, or
    the speaker in use closes. *)
Inductive PlaybackEvent :=
| ResponseAudio (audioData : Int16Array)
| SpeakerClose.

(** The speakers used so far, the one in use last (if it has not closed
    yet), each with the streams piped into it. *)
Record Playback := mkPlayback {
  speaker : option Speaker;
  closed : list Speaker
}.

Definition playback_step (p : Playback) (ev : PlaybackEvent) : Playback :=
  match ev with
  | ResponseAudio audioData =>
      {| speaker := fst (playAudio (speaker p) audioData);
         closed := closed p |}
  | SpeakerClose =>
      {| speaker := fst (on_close (speaker p));
         closed := match speaker p with
                   | Some sp => closed p ++ [sp]
                   | None => closed p
                   end |}
  end.

Definition playback_run (events : list PlaybackEvent) : Playback :=
  fold_left playback_step events {| speaker := None; closed := [] |}.

(** All speakers of a playback state. *)
Definition speakers (p : Playback) : list Speaker :=
  closed p ++ match speaker p with Some sp => [sp] | None => [] end.

(** Every response is followed by the close of its speaker before the
    next response arrives. *)
Fixpoint no_overlap (playing : bool) (events : list PlaybackEvent) : bool :=
  match events with
  | [] => true
  | ResponseAudio _ :: rest => negb playing && no_overlap true rest
  | SpeakerClose :: rest => no_overlap false rest
  end.

End VoiceAssistant.

(** ** What the specification says of the normalization

    A definition after the specification's words, for comparison with the
    code: "normalize the action string (trim, lower-case; empty/absent ->
    none)". *)

Definition is_space (c : ascii) : bool :=
  let n := nat_of_ascii c in
  ((n =? 32) || ((9 <=? n) && (n <=? 13)))%nat.

Fixpoint trim_start (s : string) : string :=
  match s with
  | EmptyString => EmptyString
  | String c rest => if is_space c then trim_start rest else s
  end.

Fixpoint trim_end (s : string) : string :=
  match s with
  | EmptyString => EmptyString
  | String c rest =>
      match trim_end rest with
      | EmptyString => if is_space c then EmptyString else String c EmptyString
      | kept => String c kept
      end
  end.

Definition trim (s : string) : string := trim_end (trim_start s).

Definition spec_normalize {R : Runtime} (action : Value) : string :=
  match action with
  | Str s =>
      let t := toLowerCase (trim s) in
      if t =? "" then "none" else t
  | _ => "none"
  end.

(** Whether a string holds one of the letters A-Z. *)
Fixpoint has_upper (s : string) : bool :=
  match s with
  | EmptyString => false
  | String c rest =>
      let n := nat_of_ascii c in
      ((65 <=? n) && (n <=? 90))%nat || has_upper rest
  end.

(** The identifiers of the action registry. *)
Definition canonical : list string :=
  ["yes"; "no"; "idk"; "happy"; "sad"; "annoyed"; "fearful"; "proud";
   "laugh"; "friendly"; "none"].

(** ** Readings of traces and runs used in further statements *)

(** The number of [console.error] calls in a trace. *)
Fixpoint errors_logged (t : Trace) : nat :=
  match t with
  | [] => 0
  | ConsoleError _ :: rest => S (errors_logged rest)
  | _ :: rest => errors_logged rest
  end.

(** The client after [client.appendInputAudio] was called on each frame in
    turn, each call on the state the one before left. *)
Definition delivered {ClientState : Type}
  (appendInputAudio : ClientState -> Int16Array -> ClientState * option Error)
  (c : ClientState) (fs : list Int16Array) : ClientState :=
  fold_left (fun c f => fst (appendInputAudio c f)) fs c.

(** The function that [case] of the switch in advanced_mood.js calls for a
    normalized action, if any. *)
Definition registered (normalized : string) : option string :=
  if normalized =? "yes" then Some "yesResponse"
  else if normalized =? "no" then Some "noResponse"
  else if normalized =? "idk" then Some "dontKnowResponse"
  else if normalized =? "happy" then Some "happy"
  else if normalized =? "sad" then Some "sad"
  else if normalized =? "annoyed" then Some "annoyed"
  else if normalized =? "fearful" then Some "fearful"
  else if normalized =? "proud" then Some "proud"
  else if normalized =? "laugh" then Some "laugh"
  else if normalized =? "friendly" then Some "friendly"
  else None.

(** [typeof v === 'string'] *)
Definition is_string (v : Value) : bool :=
  match v with
  | Str _ => true
  | _ => false
  end.

(** The attempts of a process that stops trying at its first success. *)
Fixpoint upto_success (outcomes : list (option Error))
  : list (option Error) :=
  match outcomes with
  | [] => []
  | None :: _ => [None]
  | Some e :: later => Some e :: upto_success later
  end.

Definition succeeded (outcome : option Error) : bool :=
  match outcome with
  | None => true
  | Some _ => false
  end.

(** The audio of the responses among playback events, in order. *)
Fixpoint responses (events : list VoiceAssistant.PlaybackEvent)
  : list Buffer :=
  match events with
  | [] => []
  | VoiceAssistant.ResponseAudio audioData :: rest =>
      bytes audioData :: responses rest
  | VoiceAssistant.SpeakerClose :: rest => responses rest
  end.

(** * Properties *)

(** ** The audio framing loop *)

Lemma frames_app (t u : Trace) : frames (t ++ u) = frames t ++ frames u.
Proof.
  induction t as [|ev t IH]; simpl; [reflexivity|].
  destruct ev; simpl; rewrite ?IH; reflexivity.
Qed.

Lemma failed_frames_app (t u : Trace) :
  failed_frames (t ++ u) = failed_frames t ++ failed_frames u.
Proof.
  induction t as [|ev t IH]; simpl; [reflexivity|].
  destruct ev as [| | |frame [e|]| | | |]; simpl; rewrite ?IH; reflexivity.
Qed.

Section FramerFacts.

Variable frameSize : nat.
Hypothesis frameSize_pos : 0 < frameSize.
(** The frame size is a whole number of 16-bit samples. *)
Hypothesis frameSize_even : 2 * (frameSize / 2) = frameSize.

Variable ClientState : Type.
Variable appendInputAudio :
  ClientState -> Int16Array -> ClientState * option Error.
Variable text : FramerText.

Let loop := frame_loop frameSize frameSize_pos ClientState appendInputAudio text.
Let append := try_append ClientState appendInputAudio text.

(** One turn of the [while] loop. *)
Lemma frame_loop_turn (st : FramerState ClientState) :
  loop st =
  if le_lt_dec frameSize (length (audioBuffer st)) then
    let chunk := firstn frameSize (audioBuffer st) in
    let int16Array := new_Int16Array chunk (length chunk / 2) in
    let '(c', sent) := append (client st) int16Array in
    let '(st', later) :=
      loop {| audioBuffer := skipn frameSize (audioBuffer st);
              client := c' |} in
    (st', log_sending text ++ sent ++ later)
  else (st, []).
Proof.
  unfold loop, append. rewrite frame_loop_equation_1.
  destruct (le_lt_dec frameSize (length (audioBuffer st))); reflexivity.
Qed.

Lemma frames_log_sending : frames (log_sending text) = [].
Proof. unfold log_sending. destruct (sending text); reflexivity. Qed.

Lemma failed_log_sending : failed_frames (log_sending text) = [].
Proof. unfold log_sending. destruct (sending text); reflexivity. Qed.

Lemma frames_try_append c f : frames (snd (append c f)) = [f].
Proof.
  unfold append, try_append.
  destruct (appendInputAudio c f) as [c' [e|]]; reflexivity.
Qed.

Lemma failed_try_append c f :
  failed_frames (snd (append c f)) = [f] \/
  failed_frames (snd (append c f)) = [].
Proof.
  unfold append, try_append.
  destruct (appendInputAudio c f) as [c' [e|]]; simpl; auto.
Qed.

(** A full chunk is viewed whole by the [Int16Array] made from it. *)
Lemma full_chunk_view (buf : Buffer) :
  frameSize <= length buf ->
  let chunk := firstn frameSize buf in
  bytes (new_Int16Array chunk (length chunk / 2)) = chunk /\
  length16 (new_Int16Array chunk (length chunk / 2)) = frameSize / 2 /\
  length chunk = frameSize.
Proof.
  intros Hle chunk.
  assert (Hlen : length chunk = frameSize).
  { unfold chunk. rewrite length_firstn. lia. }
  unfold new_Int16Array. cbn [bytes length16].
  rewrite Hlen, frameSize_even.
  split; [|split; reflexivity].
  rewrite <- Hlen. apply firstn_all.
Qed.

(** The loop cuts the buffer into frames and a rest shorter than a
    frame; nothing is lost, repeated or reordered. *)
Lemma frame_loop_splits :
  forall (n : nat) (st : FramerState ClientState),
    length (audioBuffer st) = n ->
    concat (map bytes (frames (snd (loop st)))) ++ audioBuffer (fst (loop st))
      = audioBuffer st /\
    Forall (well_framed frameSize) (frames (snd (loop st))) /\
    length (audioBuffer (fst (loop st))) < frameSize /\
    incl (failed_frames (snd (loop st))) (frames (snd (loop st))).
Proof.
  induction n as [n IH] using lt_wf_ind. intros st Hn.
  rewrite frame_loop_turn.
  destruct (le_lt_dec frameSize (length (audioBuffer st))) as [Hle|Hlt].
  - destruct (full_chunk_view (audioBuffer st) Hle) as (Hb & H16 & Hlen).
    cbv zeta.
    set (f := new_Int16Array _ _) in *. clearbody f.
    pose proof (frames_try_append (client st) f) as Hf.
    pose proof (failed_try_append (client st) f) as Hff.
    destruct (append (client st) f) as [c' sent]. simpl in Hf, Hff.
    set (st1 := {| audioBuffer := skipn frameSize (audioBuffer st);
                   client := c' |}).
    assert (Hshort : length (audioBuffer st1) < n).
    { simpl. rewrite length_skipn. lia. }
    destruct (IH _ Hshort st1 eq_refl) as (Hcat & Hall & Hrest & Hincl).
    destruct (loop st1) as [st' later]. cbn [fst snd audioBuffer] in *.
    rewrite !frames_app, !failed_frames_app, frames_log_sending,
      failed_log_sending, Hf. cbn [app map concat].
    repeat split.
    + rewrite Hb, <- app_assoc, Hcat. apply firstn_skipn.
    + constructor; [split; [rewrite Hb; exact Hlen | exact H16] | exact Hall].
    + exact Hrest.
    + destruct Hff as [-> | ->]; simpl.
      * intros x [<-|Hx]; [left; reflexivity | right; apply Hincl, Hx].
      * intros x Hx. right. apply Hincl, Hx.
  - simpl. repeat split; auto using incl_nil_l.
Qed.

Let data_listener := on_data frameSize frameSize_pos ClientState appendInputAudio text.
Let run := feed frameSize frameSize_pos ClientState appendInputAudio text.

Lemma on_data_splits (st : FramerState ClientState) (data : Buffer) :
  concat (map bytes (frames (snd (data_listener st data))))
    ++ audioBuffer (fst (data_listener st data))
    = audioBuffer st ++ data /\
  Forall (well_framed frameSize) (frames (snd (data_listener st data))) /\
  length (audioBuffer (fst (data_listener st data))) < frameSize /\
  incl (failed_frames (snd (data_listener st data)))
       (frames (snd (data_listener st data))).
Proof.
  unfold data_listener, on_data, processAudioData.
  set (st0 := {| audioBuffer := audioBuffer st ++ data;
                 client := client st |}).
  destruct (frame_loop_splits _ st0 eq_refl) as (Hcat & Hall & Hrest & Hincl).
  fold loop. destruct (loop st0) as [st' sent].
  cbn [fst snd frames failed_frames audioBuffer] in *. auto.
Qed.

Lemma feed_splits (chunks : list Buffer) :
  forall st : FramerState ClientState,
    length (audioBuffer st) < frameSize ->
    concat (map bytes (frames (snd (run st chunks))))
      ++ audioBuffer (fst (run st chunks))
      = audioBuffer st ++ concat chunks /\
    Forall (well_framed frameSize) (frames (snd (run st chunks))) /\
    length (audioBuffer (fst (run st chunks))) < frameSize.
Proof.
  unfold run.
  induction chunks as [|data more IH]; intros st Hst; cbn [feed concat].
  - cbn [fst snd frames map concat app]. rewrite app_nil_r. auto.
  - destruct (on_data_splits st data) as (Hcat & Hall & Hrest & _).
    fold data_listener. destruct (data_listener st data) as [st1 t1].
    cbn [fst snd] in *.
    destruct (IH st1 Hrest) as (Hcat' & Hall' & Hrest').
    destruct (feed _ _ _ _ _ st1 more) as [st2 t2]. cbn [fst snd] in *.
    rewrite frames_app, map_app, concat_app.
    repeat split.
    + rewrite <- app_assoc, Hcat', app_assoc, Hcat, <- app_assoc.
      reflexivity.
    + apply Forall_app. auto.
    + exact Hrest'.
Qed.

Lemma framed_length (fs : list Int16Array) :
  Forall (well_framed frameSize) fs ->
  length (concat (map bytes fs)) = frameSize * length fs.
Proof.
  induction 1 as [|f fs [Hf _] _ IH]; cbn [map concat length].
  - lia.
  - rewrite length_app, Hf, IH. lia.
Qed.

(** Frames and rest are counted by division by the frame size. *)
Lemma split_counts (input rest : Buffer) (fs : list Int16Array) :
  concat (map bytes fs) ++ rest = input ->
  Forall (well_framed frameSize) fs ->
  length rest < frameSize ->
  length fs = length input / frameSize /\
  length rest = length input mod frameSize.
Proof.
  intros Hcat Hall Hrest.
  assert (Hlen : length input = frameSize * length fs + length rest).
  { rewrite <- Hcat, length_app, framed_length by assumption. reflexivity. }
  split.
  - apply (Nat.div_unique _ _ _ (length rest)); assumption.
  - apply (Nat.mod_unique _ _ (length fs)); assumption.
Qed.

End FramerFacts.

(** The frames and the buffer do not depend on the client the frames are
    sent to, nor on which sends throw. *)
Section TwoClients.

Variable frameSize : nat.
Hypothesis frameSize_pos : 0 < frameSize.
Variables (ClientA ClientB : Type).
Variable appendA : ClientA -> Int16Array -> ClientA * option Error.
Variable appendB : ClientB -> Int16Array -> ClientB * option Error.
Variables (textA textB : FramerText).

Let loopA := frame_loop frameSize frameSize_pos ClientA appendA textA.
Let loopB := frame_loop frameSize frameSize_pos ClientB appendB textB.

Lemma frame_loop_any_client :
  forall (n : nat) (buf : Buffer) (a : ClientA) (b : ClientB),
    length buf = n ->
    audioBuffer (fst (loopA {| audioBuffer := buf; client := a |}))
      = audioBuffer (fst (loopB {| audioBuffer := buf; client := b |})) /\
    frames (snd (loopA {| audioBuffer := buf; client := a |}))
      = frames (snd (loopB {| audioBuffer := buf; client := b |})).
Proof.
  induction n as [n IH] using lt_wf_ind. intros buf a b Hn.
  unfold loopA, loopB. rewrite !frame_loop_turn. cbn [audioBuffer client].
  destruct (le_lt_dec frameSize (length buf)) as [Hle|Hlt]; [|auto].
  cbv zeta.
  set (f := new_Int16Array _ _). clearbody f.
  pose proof (frames_try_append ClientA appendA textA a f) as HfA.
  pose proof (frames_try_append ClientB appendB textB b f) as HfB.
  destruct (try_append ClientA appendA textA a f) as [a' sentA].
  destruct (try_append ClientB appendB textB b f) as [b' sentB].
  assert (Hshort : length (skipn frameSize buf) < n).
  { rewrite length_skipn. lia. }
  destruct (IH _ Hshort (skipn frameSize buf) a' b' eq_refl) as [Hbuf Hfr].
  fold loopA loopB.
  destruct (loopA _) as [stA laterA]. destruct (loopB _) as [stB laterB].
  cbn [fst snd] in *.
  rewrite !frames_app, !frames_log_sending, HfA, HfB, Hfr. auto.
Qed.

End TwoClients.

(** The three listeners are the loop at [chunkSize] with their own text. *)
Lemma listeners_share_the_loop (ClientState : Type)
  (appendInputAudio : ClientState -> Int16Array -> ClientState * option Error) :
  advanced_mood_on_data ClientState appendInputAudio
    = on_data chunkSize chunkSize_pos ClientState appendInputAudio
              advanced_mood_text /\
  mood_on_data ClientState appendInputAudio
    = on_data chunkSize chunkSize_pos ClientState appendInputAudio mood_text /\
  voice_assistant_on_data ClientState appendInputAudio
    = on_data chunkSize chunkSize_pos ClientState appendInputAudio
              voice_assistant_text.
Proof. repeat split. Qed.

(** C1.  Starting from the empty buffer, whatever the client and the
    chunks the microphone delivers: the frames handed to the client,
    followed by the bytes left in the buffer, are the input bytes in their
    order (so no byte is sent twice, dropped or moved); every frame has
    [chunkSize] bytes; there are [total / chunkSize] frames and
    [total mod chunkSize] bytes stay in the buffer.  When the total is a
    multiple of [chunkSize] the buffer ends empty and the frames are the
    whole input.  This holds for the listener of each script, which is
    [on_data] at its own [text]. *)
Theorem framer_emits_whole_frames_and_keeps_rest
  (ClientState : Type)
  (appendInputAudio : ClientState -> Int16Array -> ClientState * option Error)
  (text : FramerText) (c0 : ClientState) (chunks : list Buffer) :
  let r := feed chunkSize chunkSize_pos ClientState appendInputAudio text
                {| audioBuffer := []; client := c0 |} chunks in
  let total := length (concat chunks) in
  let emitted := frames (snd r) in
  let retained := audioBuffer (fst r) in
  concat (map bytes emitted) ++ retained = concat chunks /\
  Forall (fun f => length (bytes f) = chunkSize) emitted /\
  length emitted = total / chunkSize /\
  length retained = total mod chunkSize /\
  (total mod chunkSize = 0 ->
   retained = [] /\ concat (map bytes emitted) = concat chunks).
Proof.
  intros r total emitted retained.
  destruct (feed_splits chunkSize chunkSize_pos chunkSize_even ClientState
              appendInputAudio text chunks {| audioBuffer := []; client := c0 |})
    as (Hcat & Hall & Hrest).
  { apply chunkSize_pos. }
  cbn [audioBuffer app] in Hcat.
  fold r in Hcat, Hall, Hrest. fold emitted in Hcat, Hall.
  fold retained in Hcat, Hrest.
  destruct (split_counts chunkSize chunkSize_pos chunkSize_even
              (concat chunks) retained emitted Hcat Hall Hrest)
    as [Hq Hr].
  fold total in Hq, Hr.
  repeat split; try assumption.
  - eapply Forall_impl; [|exact Hall]. intros f [Hf _]. exact Hf.
  - rewrite H in Hr. destruct retained; [reflexivity | discriminate].
  - rewrite H in Hr. destruct retained; [|discriminate].
    rewrite app_nil_r in Hcat. exact Hcat.
Qed.

(** Three chunks of 3000, 3000 and 3600 bytes make two frames and leave
    nothing. *)
Lemma framer_emits_whole_frames_and_keeps_rest_witness :
  let chunks := [repeat Byte.x01 3000; repeat Byte.x02 3000; repeat Byte.x03 3600] in
  let r := feed chunkSize chunkSize_pos unit (fun _ _ => (tt, None)) mood_text
                {| audioBuffer := []; client := tt |} chunks in
  length (concat chunks) mod chunkSize = 0 /\
  audioBuffer (fst r) = [] /\
  concat (map bytes (frames (snd r))) = concat chunks.
Proof.
  intros chunks r.
  pose proof (framer_emits_whole_frames_and_keeps_rest
                unit (fun _ _ => (tt, None)) mood_text tt chunks) as H.
  cbv zeta in H. destruct H as (_ & _ & _ & _ & H).
  split; [vm_compute; reflexivity | apply H; vm_compute; reflexivity].
Defined.

(** The listener's frames and buffer are those of the loop on the old
    buffer followed by the new bytes. *)
Lemma on_data_through_loop (frameSize : nat) (frameSize_pos : 0 < frameSize)
  (ClientState : Type)
  (appendInputAudio : ClientState -> Int16Array -> ClientState * option Error)
  (text : FramerText) (buf data : Buffer) (c : ClientState) :
  audioBuffer (fst (on_data frameSize frameSize_pos ClientState
                      appendInputAudio text
                      {| audioBuffer := buf; client := c |} data))
  = audioBuffer (fst (frame_loop frameSize frameSize_pos ClientState
                        appendInputAudio text
                        {| audioBuffer := buf ++ data; client := c |})) /\
  frames (snd (on_data frameSize frameSize_pos ClientState
                 appendInputAudio text
                 {| audioBuffer := buf; client := c |} data))
  = frames (snd (frame_loop frameSize frameSize_pos ClientState
                   appendInputAudio text
                   {| audioBuffer := buf ++ data; client := c |})).
Proof.
  unfold on_data, processAudioData. cbn [audioBuffer client].
  destruct (frame_loop _ _ _ _ _ _) as [st' sent]. split; reflexivity.
Qed.

(** C9.  One ['data'] event, from any buffer, against any two clients
    (say one whose sends all succeed and one whose sends throw): the
    buffer left behind and the frames handed over are the same.  The
    frames followed by the buffer left are the bytes held before followed
    by the new ones, every frame is handed over once, also those whose
    send threw, and fewer than [chunkSize] bytes are left: a throw neither
    ends the loop nor puts the frame back. *)
Theorem framing_ignores_send_failures
  (ClientA ClientB : Type)
  (appendA : ClientA -> Int16Array -> ClientA * option Error)
  (appendB : ClientB -> Int16Array -> ClientB * option Error)
  (textA textB : FramerText)
  (buf data : Buffer) (a : ClientA) (b : ClientB) :
  let rA := on_data chunkSize chunkSize_pos ClientA appendA textA
                    {| audioBuffer := buf; client := a |} data in
  let rB := on_data chunkSize chunkSize_pos ClientB appendB textB
                    {| audioBuffer := buf; client := b |} data in
  audioBuffer (fst rA) = audioBuffer (fst rB) /\
  frames (snd rA) = frames (snd rB) /\
  concat (map bytes (frames (snd rA))) ++ audioBuffer (fst rA) = buf ++ data /\
  length (frames (snd rA)) = length (buf ++ data) / chunkSize /\
  length (audioBuffer (fst rA)) = length (buf ++ data) mod chunkSize /\
  incl (failed_frames (snd rA)) (frames (snd rA)).
Proof.
  intros rA rB.
  destruct (on_data_splits chunkSize chunkSize_pos chunkSize_even ClientA
              appendA textA {| audioBuffer := buf; client := a |} data)
    as (Hcat & Hall & Hrest & Hincl).
  fold rA in Hcat, Hall, Hrest, Hincl. cbn [audioBuffer] in Hcat.
  destruct (split_counts chunkSize chunkSize_pos chunkSize_even
              (buf ++ data) _ _ Hcat Hall Hrest) as [Hq Hr].
  destruct (frame_loop_any_client chunkSize chunkSize_pos ClientA ClientB
              appendA appendB textA textB _ (buf ++ data) a b eq_refl)
    as [Hbuf Hfr].
  pose proof (on_data_through_loop chunkSize chunkSize_pos) as HA.
  destruct (HA ClientA appendA textA buf data a) as [HA1 HA2].
  destruct (HA ClientB appendB textB buf data b) as [HB1 HB2].
  fold rA in HA1, HA2. fold rB in HB1, HB2.
  repeat split; try assumption.
  - rewrite HA1, HB1. exact Hbuf.
  - rewrite HA2, HB2. exact Hfr.
Qed.

(** ** Tool handlers *)

Lemma ascii_lower_length (s : string) :
  String.length (ascii_lower s) = String.length s.
Proof.
  induction s as [|c s IH]; simpl; [reflexivity | now rewrite IH].
Qed.

Lemma lower_ascii_not_upper (c : ascii) :
  let n := nat_of_ascii (lower_ascii c) in
  ((65 <=? n) && (n <=? 90))%nat = false.
Proof.
  destruct c as [[] [] [] [] [] [] [] []]; vm_compute; reflexivity.
Qed.

Lemma ascii_lower_has_no_upper (s : string) :
  has_upper (ascii_lower s) = false.
Proof.
  induction s as [|c s IH]; [reflexivity|].
  cbn [ascii_lower has_upper].
  rewrite IH, orb_false_r. apply lower_ascii_not_upper.
Qed.

Lemma truthy_Str (s : string) : truthy (Str s) = negb (s =? "").
Proof. reflexivity. Qed.

Section ToolHandlerFacts.

Context {R : Runtime}.

Lemma toLowerCase_empty_string : toLowerCase "" = "".
Proof. apply (toLowerCase_ascii ""). reflexivity. Qed.

Lemma advanced_normalized_Str (s : string) :
  AdvancedMood.normalized (Str s)
    = Return (if s =? "" then "none" else toLowerCase s).
Proof.
  unfold AdvancedMood.normalized. rewrite truthy_Str.
  destruct (s =? ""); reflexivity.
Qed.

Lemma mood_normalized_Str (s : string) :
  Mood.normalizedMood (Str s) = Return (toLowerCase s) /\
  FunctionCallExample.normalized (Str s) = Return (toLowerCase s).
Proof.
  unfold Mood.normalizedMood, FunctionCallExample.normalized.
  rewrite truthy_Str.
  destruct (String.eqb_spec s "") as [->|_]; cbn [negb call_toLowerCase];
    rewrite ?toLowerCase_empty_string; split; reflexivity.
Qed.

(** C2, as the scripts have it.  [action_handler] of advanced_mood.js
    normalizes an absent ([undefined], [null]) or empty action to ["none"]
    and any other string to what [String.prototype.toLowerCase] makes of
    it; the two [mood_handler]s lower-case in the same way but turn an
    absent or empty mood into the empty string.  None of them trims: the
    string that is lower-cased is the string received, blanks included, so
    that for a string of code units below 128 the normalized string has
    the length of the string received, with its letters A-Z turned into
    a-z. *)
Theorem normalization_lowercases_without_trimming (s : string) :
  AdvancedMood.normalized (Str s)
    = Return (if s =? "" then "none" else toLowerCase s) /\
  AdvancedMood.normalized Undefined = Return "none" /\
  AdvancedMood.normalized Null = Return "none" /\
  Mood.normalizedMood (Str s) = Return (toLowerCase s) /\
  Mood.normalizedMood Undefined = Return "" /\
  Mood.normalizedMood Null = Return "" /\
  FunctionCallExample.normalized (Str s) = Return (toLowerCase s) /\
  FunctionCallExample.normalized Undefined = Return "" /\
  FunctionCallExample.normalized Null = Return "" /\
  (ascii_only s = true ->
   toLowerCase s = ascii_lower s /\
   String.length (toLowerCase s) = String.length s /\
   has_upper (toLowerCase s) = false).
Proof.
  destruct (mood_normalized_Str s) as [Hm Hf].
  repeat split; try reflexivity; try assumption.
  - apply advanced_normalized_Str.
  - apply toLowerCase_ascii. assumption.
  - rewrite toLowerCase_ascii by assumption. apply ascii_lower_length.
  - rewrite toLowerCase_ascii by assumption. apply ascii_lower_has_no_upper.
Qed.

Lemma dispatch_default (n : string) :
  ~ In n ["yes"; "no"; "idk"; "happy"; "sad"; "annoyed"; "fearful"; "proud";
          "laugh"; "friendly"] ->
  AdvancedMood.dispatch n = AdvancedMood.no_action n.
Proof.
  intros Hn. unfold AdvancedMood.dispatch.
  repeat match goal with
         | |- context [n =? ?k] =>
             destruct (String.eqb_spec n k) as [->|_];
             [exfalso; apply Hn; simpl; tauto|]
         end.
  reflexivity.
Qed.

(** C3.  An action whose lower-cased form, as
    [String.prototype.toLowerCase] gives it, is none of the registry's
    identifiers runs the [default:] branch, as ["none"] does: the handler
    prints its two lines, calls none of the script's functions, and
    returns normally. *)
Theorem unknown_action_dispatches_as_none (s : string) :
  ~ In (toLowerCase s) canonical ->
  exists n : string,
    AdvancedMood.normalized (Str s) = Return n /\
    AdvancedMood.dispatch n = AdvancedMood.no_action n /\
    AdvancedMood.dispatch "none" = AdvancedMood.no_action "none" /\
    calls (fst (AdvancedMood.action_handler (Str s))) = [] /\
    calls (fst (AdvancedMood.action_handler (Str "none"))) = [] /\
    fst (AdvancedMood.action_handler (Str s))
      = ConsoleLog [Text ("Outil action_handler appelé avec action: " ++ s)%string]
        :: AdvancedMood.no_action n /\
    snd (AdvancedMood.action_handler (Str s))
      = Return (Obj [("status", Str "processed"); ("action", Str n)]).
Proof.
  intros Hs.
  exists (if s =? "" then "none" else toLowerCase s).
  pose proof (advanced_normalized_Str s) as Hn.
  assert (Hd : AdvancedMood.dispatch (if s =? "" then "none" else toLowerCase s)
               = AdvancedMood.no_action
                   (if s =? "" then "none" else toLowerCase s)).
  { destruct (s =? ""); [reflexivity|].
    apply dispatch_default. intros Hin. apply Hs.
    unfold canonical. simpl in Hin |- *. tauto. }
  assert (Hnone : AdvancedMood.normalized (Str "none") = Return "none").
  { rewrite advanced_normalized_Str. cbn [String.eqb Ascii.eqb Bool.eqb].
    rewrite (toLowerCase_ascii "none") by reflexivity. reflexivity. }
  unfold AdvancedMood.action_handler. cbn [ToString].
  rewrite Hn, Hnone. cbn [fst snd calls].
  rewrite Hd. repeat split; reflexivity.
Qed.

(** C4, as the scripts have it.  Whatever string the tool is called with,
    and also when the argument is absent, [action_handler] returns
    [{status: "processed", action: normalized}] with the action as
    [String.prototype.toLowerCase] gives it (or ["none"]), and
    [mood_handler] of mood.mjs returns [{status: "processed", mood}] with
    the mood as it was received, not lower-cased; a call of one of the
    script's functions or of none makes no difference. *)
Theorem tool_handlers_acknowledge (s : string) :
  snd (AdvancedMood.action_handler (Str s))
    = Return (Obj [("status", Str "processed");
                   ("action", Str (if s =? "" then "none" else toLowerCase s))]) /\
  snd (AdvancedMood.action_handler Undefined)
    = Return (Obj [("status", Str "processed"); ("action", Str "none")]) /\
  snd (AdvancedMood.action_handler Null)
    = Return (Obj [("status", Str "processed"); ("action", Str "none")]) /\
  snd (Mood.mood_handler (Str s))
    = Return (Obj [("status", Str "processed"); ("mood", Str s)]) /\
  snd (Mood.mood_handler Undefined)
    = Return (Obj [("status", Str "processed"); ("mood", Undefined)]) /\
  snd (Mood.mood_handler Null)
    = Return (Obj [("status", Str "processed"); ("mood", Null)]).
Proof.
  pose proof (advanced_normalized_Str s) as Ha.
  destruct (mood_normalized_Str s) as [Hm _].
  unfold AdvancedMood.action_handler, Mood.mood_handler. cbn [ToString].
  rewrite Ha, Hm. repeat split; reflexivity.
Qed.

End ToolHandlerFacts.

Lemma normalization_lowercases_without_trimming_witness :
  ascii_only " Yes " = true /\
  @toLowerCase ascii_runtime " Yes " = ascii_lower " Yes " /\
  String.length (@toLowerCase ascii_runtime " Yes ") = String.length " Yes " /\
  has_upper (@toLowerCase ascii_runtime " Yes ") = false.
Proof.
  split; [reflexivity|].
  apply (@normalization_lowercases_without_trimming ascii_runtime " Yes ").
  reflexivity.
Defined.

(** C2, as the specification words it, fails on an action with blanks
    around it: in every runtime the code keeps them, where trimming would
    give ["yes"]. *)
Lemma normalization_does_not_trim :
  (forall R : Runtime,
     @AdvancedMood.normalized R (Str " Yes ") = Return " yes " /\
     @spec_normalize R (Str " Yes ") = "yes") /\
  @AdvancedMood.normalized ascii_runtime (Str " Yes ")
    <> Return (@spec_normalize ascii_runtime (Str " Yes ")).
Proof.
  split; [|discriminate].
  intros R. split.
  - rewrite advanced_normalized_Str.
    rewrite (toLowerCase_ascii " Yes ") by reflexivity. reflexivity.
  - unfold spec_normalize. change (trim " Yes ") with "Yes".
    rewrite (toLowerCase_ascii "Yes") by reflexivity. reflexivity.
Qed.

Lemma unknown_action_dispatches_as_none_witness :
  ~ In (@toLowerCase ascii_runtime "XYZ") canonical /\
  exists n : string,
    @AdvancedMood.normalized ascii_runtime (Str "XYZ") = Return n /\
    AdvancedMood.dispatch n = AdvancedMood.no_action n /\
    AdvancedMood.dispatch "none" = AdvancedMood.no_action "none" /\
    calls (fst (@AdvancedMood.action_handler ascii_runtime (Str "XYZ"))) = [] /\
    calls (fst (@AdvancedMood.action_handler ascii_runtime (Str "none"))) = [] /\
    fst (@AdvancedMood.action_handler ascii_runtime (Str "XYZ"))
      = ConsoleLog [Text "Outil action_handler appelé avec action: XYZ"]
        :: AdvancedMood.no_action n /\
    snd (@AdvancedMood.action_handler ascii_runtime (Str "XYZ"))
      = Return (Obj [("status", Str "processed"); ("action", Str n)]).
Proof.
  assert (H : ~ In (@toLowerCase ascii_runtime "XYZ") canonical).
  { vm_compute. intros H. repeat (destruct H as [H|H]; [discriminate H|]).
    exact H. }
  split; [exact H|].
  exact (@unknown_action_dispatches_as_none ascii_runtime "XYZ" H).
Defined.

(** C4, as the specification words it, fails for [mood_handler]: called
    with ["HAPPY"] it calls [happy()] and echoes ["HAPPY"], in every
    runtime, not the lower-cased ["happy"]. *)
Lemma mood_handler_echoes_raw_mood :
  (forall R : Runtime,
     @Mood.normalizedMood R (Str "HAPPY") = Return "happy" /\
     calls (fst (@Mood.mood_handler R (Str "HAPPY"))) = ["happy"] /\
     snd (@Mood.mood_handler R (Str "HAPPY"))
       = Return (Obj [("status", Str "processed"); ("mood", Str "HAPPY")])) /\
  snd (@Mood.mood_handler ascii_runtime (Str "HAPPY"))
    <> Return (Obj [("status", Str "processed"); ("mood", Str "happy")]).
Proof.
  split; [|discriminate].
  intros R.
  assert (Hn : @Mood.normalizedMood R (Str "HAPPY") = Return "happy").
  { destruct (@mood_normalized_Str R "HAPPY") as [-> _].
    rewrite (toLowerCase_ascii "HAPPY") by reflexivity. reflexivity. }
  unfold Mood.mood_handler. cbn [ToString]. rewrite Hn.
  repeat split; reflexivity.
Qed.

(** ** Conversation reset *)

Lemma lookup_assign_same (props : list (string * Value)) (key : string)
  (v : Value) :
  lookup (assign props key v) key = v.
Proof.
  induction props as [|[k w] rest IH]; cbn [assign lookup].
  - rewrite String.eqb_refl. reflexivity.
  - destruct (String.eqb_spec k key) as [->|Hk]; cbn [lookup].
    + rewrite String.eqb_refl. reflexivity.
    + apply String.eqb_neq in Hk. rewrite Hk. exact IH.
Qed.

(** The client holds an array of items exactly when its conversation is an
    object whose [items] is an array. *)
Lemma items_array_shape (cprops : list (string * Value)) :
  isArray (conversation_items (Obj cprops)) = true ->
  exists vprops elems,
    lookup cprops "conversation" = Obj vprops /\
    lookup vprops "items" = Arr elems.
Proof.
  unfold conversation_items. cbn [get bind].
  destruct (lookup cprops "conversation") as [| |b|n|s|l|vprops];
    cbn [get]; try discriminate.
  destruct (lookup vprops "items") as [| |b|n|s|elems|o] eqn:Hi;
    try discriminate.
  intros _. exists vprops, elems. auto.
Qed.

Lemma can_reset_is_the_shape (cprops : list (string * Value)) :
  can_reset (Obj cprops) = Return (isArray (conversation_items (Obj cprops))).
Proof.
  unfold can_reset, conversation_items. cbn [get bind].
  destruct (lookup cprops "conversation") as [| |[]|n|s|l|vprops];
    cbn [truthy get bind isArray]; try reflexivity.
  - destruct (negb (n =? 0)%Z); reflexivity.
  - destruct (negb (s =? "")); reflexivity.
Qed.

Lemma reset_items_empties (cprops : list (string * Value)) :
  isArray (conversation_items (Obj cprops)) = true ->
  exists cprops',
    reset_items (Obj cprops) = Return (Obj cprops') /\
    conversation_items (Obj cprops') = Arr [].
Proof.
  intros H. destruct (items_array_shape cprops H) as (vprops & elems & Hc & _).
  exists (assign cprops "conversation" (Obj (assign vprops "items" (Arr [])))).
  unfold reset_items, conversation_items. cbn [get bind]. rewrite Hc.
  cbn [set bind get]. rewrite !lookup_assign_same. cbn [get].
  rewrite lookup_assign_same. auto.
Qed.

(** The listener, case by case, on a client object and an item object. *)
Lemma reset_listener_cases (completed_line reset_line : string)
  (cprops iprops : list (string * Value)) :
  let r := reset_on_function_call completed_line reset_line
             (Obj cprops) (Obj iprops) in
  snd r = Return tt /\
  (is_function_call (Obj iprops) = false ->
   fst (fst r) = Obj cprops /\ snd (fst r) = []) /\
  (is_function_call (Obj iprops) = true ->
   isArray (conversation_items (Obj cprops)) = false ->
   fst (fst r) = Obj cprops /\ resets (snd (fst r)) = 0) /\
  (is_function_call (Obj iprops) = true ->
   isArray (conversation_items (Obj cprops)) = true ->
   conversation_items (fst (fst r)) = Arr [] /\ resets (snd (fst r)) = 1 /\
   exists cprops', fst (fst r) = Obj cprops').
Proof.
  unfold reset_on_function_call, is_function_call. cbn [get].
  destruct (strict_eq_str (lookup iprops "type") "function_call").
  - rewrite can_reset_is_the_shape.
    destruct (isArray (conversation_items (Obj cprops))) eqn:Hshape.
    + destruct (reset_items_empties cprops Hshape) as (cprops' & -> & Hitems).
      cbn [fst snd app resets]. repeat split; eauto; discriminate.
    + cbn [fst snd resets]. repeat split; auto; discriminate.
  - cbn [fst snd]. repeat split; auto; discriminate.
Qed.

(** C5.  When the listener of either script runs on a completed
    [function_call] item and the client holds an array of [n] items,
    whatever [n] is, the client holds an array of no item afterwards. *)
Theorem reset_leaves_no_item
  (cprops iprops : list (string * Value)) (n : nat) :
  item_count (Obj cprops) = Some n ->
  is_function_call (Obj iprops) = true ->
  item_count
    (fst (fst (AdvancedMood.on_item_completed (Obj cprops) (Obj iprops))))
    = Some 0 /\
  item_count
    (fst (fst (Mood.on_item_completed (Obj cprops) (Obj iprops))))
    = Some 0.
Proof.
  intros Hcount Hcall.
  assert (Hshape : isArray (conversation_items (Obj cprops)) = true).
  { unfold item_count in Hcount.
    destruct (conversation_items (Obj cprops)); try discriminate.
    reflexivity. }
  unfold item_count, AdvancedMood.on_item_completed, Mood.on_item_completed.
  split.
  - destruct (reset_listener_cases
                "Appel de fonction terminé :"
                "Le contexte de conversation a été réinitialisé pour permettre de nouvelles interactions."
                cprops iprops) as (_ & _ & _ & H).
    destruct (H Hcall Hshape) as (-> & _). reflexivity.
  - destruct (reset_listener_cases
                "Function call completed:"
                "Conversation context has been reset for new input."
                cprops iprops) as (_ & _ & _ & H).
    destruct (H Hcall Hshape) as (-> & _). reflexivity.
Qed.

Lemma reset_leaves_no_item_witness :
  let cprops :=
    [("sessionCreated", Bool true);
     ("conversation",
      Obj [("items", Arr [Obj [("type", Str "message")];
                          Obj [("type", Str "function_call")]]);
           ("itemLookup", Obj [])])] in
  let iprops := [("id", Str "item_1"); ("type", Str "function_call")] in
  item_count (Obj cprops) = Some 2 /\
  item_count
    (fst (fst (AdvancedMood.on_item_completed (Obj cprops) (Obj iprops))))
    = Some 0 /\
  item_count
    (fst (fst (Mood.on_item_completed (Obj cprops) (Obj iprops))))
    = Some 0.
Proof.
  intros cprops iprops.
  split; [reflexivity|].
  apply (reset_leaves_no_item cprops iprops 2); reflexivity.
Defined.

(** An item that is not a [function_call] leaves the client alone,
    whatever the item is. *)
Lemma other_items_change_nothing (completed_line reset_line : string)
  (client item : Value) :
  is_function_call item = false ->
  fst (fst (reset_on_function_call completed_line reset_line client item))
    = client /\
  snd (fst (reset_on_function_call completed_line reset_line client item))
    = [].
Proof.
  unfold is_function_call, reset_on_function_call.
  destruct (get item "type") as [type|e]; [|auto].
  intros ->. auto.
Qed.

Lemma function_call_is_object (item : Value) :
  is_function_call item = true -> exists iprops, item = Obj iprops.
Proof.
  unfold is_function_call.
  destruct item; cbn [get strict_eq_str]; try discriminate. eauto.
Qed.

(** Over a run of completed items, the client keeps holding an array of
    items and is reset once for each [function_call] item. *)
Lemma completed_run_resets (completed_line reset_line : string)
  (items : list Value) :
  forall cprops : list (string * Value),
    isArray (conversation_items (Obj cprops)) = true ->
    resets (snd (completed_run
                   (reset_on_function_call completed_line reset_line)
                   (Obj cprops) items))
    = length (filter is_function_call items).
Proof.
  assert (Happ : forall t u, resets (t ++ u) = resets t + resets u).
  { induction t as [|ev t IH]; intros u; [reflexivity|].
    destruct ev; cbn [app resets]; rewrite ?IH; reflexivity. }
  induction items as [|item more IH]; intros cprops Hshape; [reflexivity|].
  cbn [completed_run filter].
  destruct (is_function_call item) eqn:Hcall.
  - destruct (function_call_is_object item Hcall) as [iprops ->].
    destruct (reset_listener_cases completed_line reset_line cprops iprops)
      as (_ & _ & _ & H).
    destruct (H Hcall Hshape) as (Hitems & Hone & cprops' & Hc').
    destruct (reset_on_function_call _ _ _ _) as [[client1 t1] c1].
    cbn [fst snd] in *. subst client1.
    specialize (IH cprops'). rewrite Hitems in IH. specialize (IH eq_refl).
    destruct (completed_run _ _ more) as [client2 t2]. cbn [fst snd] in *.
    rewrite Happ, Hone, IH. reflexivity.
  - destruct (other_items_change_nothing completed_line reset_line
                (Obj cprops) item Hcall) as [Hsame Hnil].
    destruct (reset_on_function_call _ _ _ _) as [[client1 t1] c1].
    cbn [fst snd] in *. subst client1 t1.
    specialize (IH cprops Hshape).
    destruct (completed_run _ _ more) as [client2 t2]. cbn [fst snd] in *.
    exact IH.
Qed.

(** C6, as the script has it.  On a client that holds an array of items,
    the listener of advanced_mood.js assigns the empty array exactly once
    when the completed item is a [function_call], whatever became of the
    call of the tool, which the listener does not look at, and not at all
    otherwise, in particular not for a [message] item, which leaves the
    client as it was; over a run of completed items there are as many
    resets as [function_call] items. *)
Theorem reset_exactly_on_function_call
  (cprops : list (string * Value)) (n : nat) :
  item_count (Obj cprops) = Some n ->
  (forall iprops : list (string * Value),
     let r := AdvancedMood.on_item_completed (Obj cprops) (Obj iprops) in
     (is_function_call (Obj iprops) = true ->
      resets (snd (fst r)) = 1 /\ item_count (fst (fst r)) = Some 0) /\
     (is_function_call (Obj iprops) = false ->
      resets (snd (fst r)) = 0 /\ fst (fst r) = Obj cprops) /\
     (lookup iprops "type" = Str "message" ->
      resets (snd (fst r)) = 0 /\ fst (fst r) = Obj cprops)) /\
  (forall items : list Value,
     resets (snd (completed_run AdvancedMood.on_item_completed
                    (Obj cprops) items))
     = length (filter is_function_call items)).
Proof.
  intros Hcount.
  assert (Hshape : isArray (conversation_items (Obj cprops)) = true).
  { unfold item_count in Hcount.
    destruct (conversation_items (Obj cprops)); try discriminate.
    reflexivity. }
  unfold AdvancedMood.on_item_completed. split.
  - intros iprops.
    pose proof (reset_listener_cases
                "Appel de fonction terminé :"
                "Le contexte de conversation a été réinitialisé pour permettre de nouvelles interactions."
                cprops iprops) as H.
    cbv zeta in H |- *. destruct H as (_ & Hno & _ & Hyes).
    set (r := reset_on_function_call _ _ _ _) in *.
    assert (Hother : is_function_call (Obj iprops) = false ->
                     resets (snd (fst r)) = 0 /\ fst (fst r) = Obj cprops).
    { intros Hcall. destruct (Hno Hcall) as [-> ->]. auto. }
    repeat split.
    + apply Hyes; assumption.
    + unfold item_count. destruct (Hyes H Hshape) as (-> & _). reflexivity.
    + apply Hother; assumption.
    + apply Hother; assumption.
    + apply Hother. unfold is_function_call. cbn [get]. rewrite H. reflexivity.
    + apply Hother. unfold is_function_call. cbn [get]. rewrite H. reflexivity.
  - intros items. apply completed_run_resets. exact Hshape.
Qed.

Lemma reset_exactly_on_function_call_witness :
  let cprops :=
    [("conversation",
      Obj [("items", Arr [Obj [("type", Str "function_call")]])])] in
  item_count (Obj cprops) = Some 1 /\
  resets (snd (completed_run AdvancedMood.on_item_completed (Obj cprops)
                 [Obj [("type", Str "message"); ("role", Str "assistant")];
                  Obj [("type", Str "function_call")];
                  Obj [("type", Str "function_call_output")];
                  Obj [("type", Str "function_call")]]))
  = 2.
Proof.
  intros cprops. split; [reflexivity|].
  exact (proj2 (reset_exactly_on_function_call cprops 1 eq_refl)
           [Obj [("type", Str "message"); ("role", Str "assistant")];
            Obj [("type", Str "function_call")];
            Obj [("type", Str "function_call_output")];
            Obj [("type", Str "function_call")]]).
Defined.

(** C6, as the specification words it, fails for a tool call that is not
    acknowledged: called with the action [true], [action_handler] throws
    in every runtime and returns no payload, and the listener, given the
    completed [function_call] item of that call, resets the conversation
    all the same. *)
Lemma reset_happens_without_acknowledgement :
  let client :=
    Obj [("conversation",
          Obj [("items", Arr [Obj [("type", Str "message")];
                              Obj [("type", Str "function_call")]])])] in
  let item :=
    Obj [("type", Str "function_call"); ("name", Str "action_handler");
         ("status", Str "completed")] in
  (forall R : Runtime,
     @AdvancedMood.action_handler R (Bool true)
     = ([ConsoleLog [Text "Outil action_handler appelé avec action: true"]],
        Throw "TypeError: toLowerCase is not a function")) /\
  resets (snd (fst (AdvancedMood.on_item_completed client item))) = 1 /\
  item_count client = Some 2 /\
  item_count (fst (fst (AdvancedMood.on_item_completed client item)))
    = Some 0.
Proof.
  repeat split.
Qed.

(** C10.  When the client does not hold an array of items (no
    conversation, a conversation that is no object, or items that are no
    array), the listener of either script, run on any item object, leaves
    the client as it was, assigns nothing and returns normally. *)
Theorem reset_needs_an_item_array (cprops iprops : list (string * Value)) :
  isArray (conversation_items (Obj cprops)) = false ->
  let rA := AdvancedMood.on_item_completed (Obj cprops) (Obj iprops) in
  let rM := Mood.on_item_completed (Obj cprops) (Obj iprops) in
  (fst (fst rA) = Obj cprops /\ resets (snd (fst rA)) = 0 /\
   snd rA = Return tt) /\
  (fst (fst rM) = Obj cprops /\ resets (snd (fst rM)) = 0 /\
   snd rM = Return tt).
Proof.
  intros Hshape rA rM.
  assert (H : forall cl rl,
             let r := reset_on_function_call cl rl (Obj cprops) (Obj iprops) in
             fst (fst r) = Obj cprops /\ resets (snd (fst r)) = 0 /\
             snd r = Return tt).
  { intros cl rl r.
    destruct (reset_listener_cases cl rl cprops iprops)
      as (Hret & Hno & Hguard & _).
    fold r in Hret, Hno, Hguard.
    destruct (is_function_call (Obj iprops)).
    - destruct (Hguard eq_refl Hshape). auto.
    - destruct (Hno eq_refl) as [-> ->]. auto. }
  split; apply H.
Qed.

Lemma reset_needs_an_item_array_witness :
  let absent := [("sessionCreated", Bool true)] in
  let odd := [("conversation", Obj [("items", Str "none yet")])] in
  let item := [("type", Str "function_call")] in
  AdvancedMood.on_item_completed (Obj absent) (Obj item)
    = (Obj absent,
       [ConsoleLog [Text "Appel de fonction terminé :"; Shown (Obj item)]],
       Return tt) /\
  fst (fst (Mood.on_item_completed (Obj odd) (Obj item))) = Obj odd.
Proof.
  intros absent odd item. split.
  - reflexivity.
  - apply (reset_needs_an_item_array odd item). reflexivity.
Defined.

(** ** Connection attempts *)

Lemma attempts_app (t u : Trace) : attempts (t ++ u) = attempts t ++ attempts u.
Proof.
  induction t as [|ev t IH]; [reflexivity|].
  destruct ev; cbn [app attempts]; rewrite ?IH; reflexivity.
Qed.

Lemma delays_app (t u : Trace) : delays (t ++ u) = delays t ++ delays u.
Proof.
  induction t as [|ev t IH]; [reflexivity|].
  destruct ev; cbn [app delays]; rewrite ?IH; reflexivity.
Qed.

Lemma starts_app (t u : Trace) : starts (t ++ u) = starts t + starts u.
Proof.
  induction t as [|ev t IH]; [reflexivity|].
  destruct ev; cbn [app starts]; rewrite ?IH; reflexivity.
Qed.

Lemma boot_failed (e : Error) (later : list (option Error)) :
  boot VoiceAssistant.main (Some e :: later)
  = VoiceAssistant.main (Some e) ++ boot VoiceAssistant.main later.
Proof. reflexivity. Qed.

(** While [connect] keeps failing, the second script of mood.mjs keeps
    trying, each time after a timer of 5000 ms, and then goes on as the
    later outcomes say. *)
Lemma boot_retries (errors : list Error) (later : list (option Error)) :
  let t := boot VoiceAssistant.main (map Some errors ++ later) in
  let u := boot VoiceAssistant.main later in
  attempts t = map Some errors ++ attempts u /\
  delays t = repeat 5000%Z (length errors) ++ delays u /\
  starts t = starts u.
Proof.
  induction errors as [|e errors IH]; [cbn; auto|].
  cbv zeta in IH |- *. destruct IH as (Ha & Hd & Hs).
  cbn [map app]. rewrite boot_failed.
  rewrite attempts_app, delays_app, starts_app, Ha, Hd, Hs.
  cbn [VoiceAssistant.main attempts delays starts app length repeat Nat.add].
  auto.
Qed.

(** C8, as the scripts have it.  In the second script of mood.mjs,
    however many times [connect] fails, [main] is run again after a timer
    of 5000 ms each time, the microphone stream is not started while the
    attempts fail, and it is started once, last of all, when an attempt
    succeeds.  In advanced_mood.js and in the first script of mood.mjs a
    failed [connect] arms no timer and starts no stream. *)
Theorem connect_failures_are_retried_by_the_voice_assistant
  (errors : list Error) (e : Error) :
  let failing := boot VoiceAssistant.main (map Some errors) in
  let recovered := boot VoiceAssistant.main (map Some errors ++ [None]) in
  (attempts failing = map Some errors /\
   delays failing = repeat 5000%Z (length errors) /\
   starts failing = 0) /\
  (attempts recovered = map Some errors ++ [None] /\
   delays recovered = repeat 5000%Z (length errors) /\
   starts recovered = 1 /\
   exists before, recovered = before ++ [StartAudioStream]
                  /\ starts before = 0) /\
  (delays (AdvancedMood.main (Some e)) = [] /\
   starts (AdvancedMood.main (Some e)) = 0 /\
   delays (Mood.main (Some e)) = [] /\
   starts (Mood.main (Some e)) = 0).
Proof.
  intros failing recovered.
  pose proof (boot_retries errors []) as H0.
  pose proof (boot_retries errors [None]) as H1.
  cbv zeta in H0, H1. rewrite app_nil_r in H0.
  fold failing in H0. fold recovered in H1.
  destruct H0 as (Ha0 & Hd0 & Hs0). destruct H1 as (Ha1 & Hd1 & Hs1).
  cbn in Ha0, Hd0, Hs0, Ha1, Hd1, Hs1. rewrite app_nil_r in Ha0, Hd0, Hd1.
  repeat split; try assumption; try reflexivity.
  clear - errors. subst recovered.
  induction errors as [|e' errors (before & Hb & Hs)].
  - exists [ConsoleLog [Text "Connecting to the OpenAI Realtime API..."];
            Connect None;
            ConsoleLog [Text "Successfully connected to the API."]].
    split; reflexivity.
  - cbn [map app]. rewrite boot_failed, Hb. eexists. split.
    + rewrite app_assoc. reflexivity.
    + rewrite starts_app, Hs. reflexivity.
Qed.

(** C8, as the specification words it, fails for advanced_mood.js: a
    failed [connect] arms no timer, and [main] is not run again even
    though a second attempt would have succeeded. *)
Lemma advanced_mood_does_not_retry :
  delays (AdvancedMood.main (Some "ECONNREFUSED")) = [] /\
  attempts (boot AdvancedMood.main [Some "ECONNREFUSED"; None])
    = [Some "ECONNREFUSED"] /\
  starts (boot AdvancedMood.main [Some "ECONNREFUSED"; None]) = 0.
Proof. repeat split. Qed.

(** ** Playback *)

Import VoiceAssistant.

Lemma playAudio_pipes_at_once (current : option Speaker)
  (audioData : Int16Array) :
  exists sp,
    fst (playAudio current audioData) = Some sp /\
    piped sp = match current with
               | Some old => piped old
               | None => []
               end ++ [bytes audioData].
Proof.
  unfold playAudio. destruct current as [old|]; cbn; eauto.
Qed.

(** When responses and closes alternate, every speaker gets one stream. *)
Lemma alternating_playbacks (events : list PlaybackEvent) :
  forall (p : Playback) (playing : bool),
    no_overlap playing events = true ->
    (playing = false -> speaker p = None) ->
    Forall (fun sp => length (piped sp) = 1) (speakers p) ->
    Forall (fun sp => length (piped sp) = 1)
           (speakers (fold_left playback_step events p)).
Proof.
  induction events as [|ev events IH]; intros p playing Hrun Hidle Hone;
    [exact Hone|].
  cbn [fold_left]. destruct ev as [audioData|]; cbn [no_overlap] in Hrun.
  - apply andb_prop in Hrun. destruct Hrun as [Hplaying Hrun].
    apply negb_true_iff in Hplaying. specialize (Hidle Hplaying).
    apply (IH _ true Hrun); [discriminate|].
    unfold speakers in *. cbn [playback_step speaker closed].
    rewrite Hidle in *. cbn. rewrite app_nil_r in Hone.
    apply Forall_app. split; [exact Hone | repeat constructor].
  - apply (IH _ false Hrun).
    + intros _. cbn [playback_step speaker]. destruct (speaker p); reflexivity.
    + unfold speakers in *. cbn [playback_step speaker closed].
      destruct (speaker p) as [sp|]; cbn [on_close fst];
        rewrite app_nil_r; [exact Hone|].
      rewrite app_nil_r in Hone. exact Hone.
Qed.

(** C7, as the script has it.  [playAudio] neither queues nor rejects: it
    pipes the response into the speaker in use at once, after whatever was
    piped into it before, and makes a new speaker only when none is in
    use.  A speaker gets exactly one stream when each response arrives
    after the close of the speaker of the one before. *)
Theorem playback_pipes_into_the_speaker_in_use
  (current : option Speaker) (audioData : Int16Array)
  (events : list PlaybackEvent) :
  (exists sp,
     fst (playAudio current audioData) = Some sp /\
     piped sp = match current with
                | Some old => piped old
                | None => []
                end ++ [bytes audioData]) /\
  (no_overlap false events = true ->
   Forall (fun sp => length (piped sp) = 1)
          (speakers (playback_run events))).
Proof.
  split; [apply playAudio_pipes_at_once|].
  intros Hrun. unfold playback_run.
  apply (alternating_playbacks events _ false Hrun); [reflexivity|].
  constructor.
Qed.

Lemma playback_pipes_into_the_speaker_in_use_witness :
  let first := {| bytes := [Byte.x01; Byte.x02]; length16 := 1 |} in
  let second := {| bytes := [Byte.x03; Byte.x04]; length16 := 1 |} in
  let events := [ResponseAudio first; SpeakerClose; ResponseAudio second] in
  no_overlap false events = true /\
  Forall (fun sp => length (piped sp) = 1) (speakers (playback_run events)).
Proof.
  intros first second events. split; [reflexivity|].
  apply (playback_pipes_into_the_speaker_in_use None first events).
  reflexivity.
Defined.

(** C7, as the specification words it, fails when a second response
    arrives before the speaker has closed: both streams are piped into
    the one speaker, the second neither waits nor is refused. *)
Lemma second_response_shares_the_speaker :
  let first := {| bytes := [Byte.x01; Byte.x02]; length16 := 1 |} in
  let second := {| bytes := [Byte.x03; Byte.x04]; length16 := 1 |} in
  speakers (playback_run [ResponseAudio first; ResponseAudio second])
  = [{| piped := [[Byte.x01; Byte.x02]; [Byte.x03; Byte.x04]];
        close_listeners := 2 |}].
Proof. reflexivity. Qed.

(** * Further properties *)

(** ** The audio framing loop, continued *)

Lemma errors_logged_app (t u : Trace) :
  errors_logged (t ++ u) = errors_logged t + errors_logged u.
Proof.
  induction t as [|ev t IH]; [reflexivity|].
  destruct ev; cbn [app errors_logged]; rewrite ?IH; reflexivity.
Qed.

Lemma delivered_app {ClientState : Type}
  (appendInputAudio : ClientState -> Int16Array -> ClientState * option Error)
  (c : ClientState) (fs gs : list Int16Array) :
  delivered appendInputAudio c (fs ++ gs)
  = delivered appendInputAudio (delivered appendInputAudio c fs) gs.
Proof. unfold delivered. apply fold_left_app. Qed.

Section FramerSequencing.

Variable frameSize : nat.
Hypothesis frameSize_pos : 0 < frameSize.
Variable ClientState : Type.
Variable appendInputAudio :
  ClientState -> Int16Array -> ClientState * option Error.
Variable text : FramerText.

Let loop := frame_loop frameSize frameSize_pos ClientState appendInputAudio text.

Lemma try_append_effects (c : ClientState) (f : Int16Array) :
  let r := try_append ClientState appendInputAudio text c f in
  fst r = fst (appendInputAudio c f) /\
  frames (snd r) = [f] /\
  errors_logged (snd r) = length (failed_frames (snd r)).
Proof.
  unfold try_append.
  destruct (appendInputAudio c f) as [c' [e|]]; repeat split.
Qed.

Lemma errors_log_sending : errors_logged (log_sending text) = 0.
Proof. unfold log_sending. destruct (sending text); reflexivity. Qed.

(** The loop calls the client on each frame in turn and prints one error
    for each send that threw. *)
Lemma frame_loop_sequences :
  forall (n : nat) (st : FramerState ClientState),
    length (audioBuffer st) = n ->
    client (fst (loop st))
      = delivered appendInputAudio (client st) (frames (snd (loop st))) /\
    errors_logged (snd (loop st)) = length (failed_frames (snd (loop st))).
Proof.
  induction n as [n IH] using lt_wf_ind. intros st Hn.
  unfold loop. rewrite frame_loop_turn.
  destruct (le_lt_dec frameSize (length (audioBuffer st))) as [Hle|Hlt];
    [|split; reflexivity].
  cbv zeta. set (f := new_Int16Array _ _). clearbody f.
  destruct (try_append_effects (client st) f) as (Hc & Hf & He).
  destruct (try_append ClientState appendInputAudio text (client st) f)
    as [c' sent].
  cbn [fst snd] in Hc, Hf, He.
  set (st1 := {| audioBuffer := skipn frameSize (audioBuffer st);
                 client := c' |}).
  assert (Hshort : length (audioBuffer st1) < n).
  { cbn [st1 audioBuffer]. rewrite length_skipn. lia. }
  destruct (IH _ Hshort st1 eq_refl) as [Hclient Herr].
  fold loop. destruct (loop st1) as [st' later]. cbn [fst snd] in *.
  rewrite !frames_app, !failed_frames_app, !errors_logged_app,
    (frames_log_sending text), (failed_log_sending text),
    errors_log_sending, Hf, !length_app, He, Herr.
  cbn [app length Nat.add]. split; [|reflexivity].
  rewrite Hclient. cbn [st1 client]. unfold delivered. cbn [fold_left].
  rewrite Hc. reflexivity.
Qed.

Lemma on_data_sequences (st : FramerState ClientState) (data : Buffer) :
  let r := on_data frameSize frameSize_pos ClientState appendInputAudio
             text st data in
  client (fst r) = delivered appendInputAudio (client st) (frames (snd r)) /\
  errors_logged (snd r) = length (failed_frames (snd r)).
Proof.
  unfold on_data, processAudioData.
  set (st0 := {| audioBuffer := audioBuffer st ++ data;
                 client := client st |}).
  destruct (frame_loop_sequences _ st0 eq_refl) as [Hc He].
  fold loop. destruct (loop st0) as [st' sent]. cbn [fst snd] in *.
  cbn [frames failed_frames errors_logged]. auto.
Qed.

Lemma feed_sequences (chunks : list Buffer) :
  forall st : FramerState ClientState,
    let r := feed frameSize frameSize_pos ClientState appendInputAudio
               text st chunks in
    client (fst r) = delivered appendInputAudio (client st) (frames (snd r)) /\
    errors_logged (snd r) = length (failed_frames (snd r)).
Proof.
  induction chunks as [|data more IH]; intros st; [split; reflexivity|].
  cbv zeta in IH |- *. cbn [feed].
  destruct (on_data_sequences st data) as [Hc He].
  destruct (on_data _ _ _ _ _ st data) as [st1 t1]. cbn [fst snd] in *.
  destruct (IH st1) as [Hc' He'].
  destruct (feed _ _ _ _ _ st1 more) as [st2 t2]. cbn [fst snd] in *.
  rewrite frames_app, failed_frames_app, errors_logged_app, length_app,
    delivered_app, <- Hc, He, He'. auto.
Qed.

(** With less than a frame in hand the loop does not run. *)
Lemma on_data_short (st : FramerState ClientState) (data : Buffer) :
  length (audioBuffer st) + length data < frameSize ->
  on_data frameSize frameSize_pos ClientState appendInputAudio text st data
  = ({| audioBuffer := audioBuffer st ++ data; client := client st |},
     [ConsoleLog [Text (received_before text ++ decimal (length data)
                        ++ received_after text)%string]]).
Proof.
  intros Hshort. unfold on_data, processAudioData.
  rewrite frame_loop_turn. cbn [audioBuffer].
  destruct (le_lt_dec frameSize (length (audioBuffer st ++ data)))
    as [Hle|_]; [|reflexivity].
  rewrite length_app in Hle. lia.
Qed.

End FramerSequencing.

Lemma app_same_length {A : Type} (a b x y : list A) :
  length a = length b -> a ++ x = b ++ y -> a = b /\ x = y.
Proof.
  revert b. induction a as [|h a IH]; intros [|k b] Hlen Heq;
    try discriminate Hlen.
  - auto.
  - cbn [app] in Heq. injection Heq as -> Heq.
    injection Hlen as Hlen. destruct (IH b Hlen Heq) as [-> ->]. auto.
Qed.

(** A byte sequence has one cutting into frames and a rest shorter than a
    frame. *)
Lemma framed_unique (frameSize : nat) (fs1 : list Int16Array) :
  forall (fs2 : list Int16Array) (r1 r2 : Buffer),
    Forall (well_framed frameSize) fs1 ->
    Forall (well_framed frameSize) fs2 ->
    length r1 < frameSize -> length r2 < frameSize ->
    concat (map bytes fs1) ++ r1 = concat (map bytes fs2) ++ r2 ->
    fs1 = fs2 /\ r1 = r2.
Proof.
  induction fs1 as [|f1 fs1 IH]; intros [|f2 fs2] r1 r2 H1 H2 Hr1 Hr2 Heq;
    cbn [map concat app] in Heq.
  - auto.
  - destruct (Forall_inv H2) as [Hf _].
    apply (f_equal (@length _)) in Heq.
    rewrite <- app_assoc, length_app, Hf in Heq. lia.
  - destruct (Forall_inv H1) as [Hf _].
    apply (f_equal (@length _)) in Heq.
    rewrite <- app_assoc, length_app, Hf in Heq. lia.
  - destruct (Forall_inv H1) as [Hb1 Hs1].
    destruct (Forall_inv H2) as [Hb2 Hs2].
    pose proof (Forall_inv_tail H1) as H1'.
    pose proof (Forall_inv_tail H2) as H2'.
    rewrite <- !app_assoc in Heq.
    destruct (app_same_length _ _ _ _ (eq_trans Hb1 (eq_sym Hb2)) Heq)
      as [Hb Hrest].
    destruct (IH fs2 r1 r2 H1' H2' Hr1 Hr2 Hrest) as [-> ->].
    destruct f1 as [b1 n1], f2 as [b2 n2]. cbn [bytes length16] in *.
    subst. auto.
Qed.

(** The [k]-th frame of a cutting is the [k]-th slice of the input. *)
Lemma framed_slice (frameSize : nat) (fs : list Int16Array) :
  forall (rest input : Buffer) (k : nat) (f : Int16Array),
    Forall (well_framed frameSize) fs ->
    concat (map bytes fs) ++ rest = input ->
    nth_error fs k = Some f ->
    bytes f = firstn frameSize (skipn (k * frameSize) input) /\
    length16 f = frameSize / 2.
Proof.
  induction fs as [|f0 fs IH]; intros rest input k f Hall Hcat Hk.
  - destruct k; discriminate Hk.
  - destruct (Forall_inv Hall) as [Hb Hs].
    pose proof (Forall_inv_tail Hall) as Hall'. subst input.
    cbn [map concat]. rewrite <- app_assoc.
    destruct k as [|k]; cbn [nth_error] in Hk.
    + injection Hk as Hk. subst f. cbn [Nat.mul skipn]. split; [|exact Hs].
      rewrite firstn_app, Hb, Nat.sub_diag, <- Hb, firstn_all.
      cbn [firstn]. rewrite app_nil_r. reflexivity.
    + destruct (IH rest _ k f Hall' eq_refl Hk) as [Hslice H16].
      split; [|exact H16]. rewrite Hslice.
      replace (S k * frameSize) with (frameSize + k * frameSize) by lia.
      rewrite (skipn_app (frameSize + k * frameSize) (bytes f0)), Hb,
        (skipn_all2 (n := frameSize + k * frameSize) (bytes f0)) by lia.
      replace (frameSize + k * frameSize - frameSize) with (k * frameSize)
        by lia.
      reflexivity.
Qed.

(** X1.  The frames sent and the bytes left in the buffer depend on the
    bytes the microphone delivered, not on how they were cut into ['data']
    events (nor on the client): two runs over chunk lists with the same
    concatenation send the same frames and leave the same buffer. *)
Theorem framing_ignores_chunk_boundaries
  (ClientA ClientB : Type)
  (appendA : ClientA -> Int16Array -> ClientA * option Error)
  (appendB : ClientB -> Int16Array -> ClientB * option Error)
  (textA textB : FramerText) (a : ClientA) (b : ClientB)
  (chunks1 chunks2 : list Buffer) :
  concat chunks1 = concat chunks2 ->
  let rA := feed chunkSize chunkSize_pos ClientA appendA textA
                 {| audioBuffer := []; client := a |} chunks1 in
  let rB := feed chunkSize chunkSize_pos ClientB appendB textB
                 {| audioBuffer := []; client := b |} chunks2 in
  frames (snd rA) = frames (snd rB) /\
  audioBuffer (fst rA) = audioBuffer (fst rB).
Proof.
  intros Hsame rA rB.
  destruct (feed_splits chunkSize chunkSize_pos chunkSize_even ClientA
              appendA textA chunks1 {| audioBuffer := []; client := a |}
              chunkSize_pos) as (HcA & HaA & HrA).
  destruct (feed_splits chunkSize chunkSize_pos chunkSize_even ClientB
              appendB textB chunks2 {| audioBuffer := []; client := b |}
              chunkSize_pos) as (HcB & HaB & HrB).
  fold rA in HcA, HaA, HrA. fold rB in HcB, HaB, HrB.
  cbn [audioBuffer app] in HcA, HcB.
  apply (framed_unique chunkSize); try assumption.
  rewrite HcA, HcB. exact Hsame.
Qed.

Lemma framing_ignores_chunk_boundaries_witness :
  let always_down (c : nat) (f : Int16Array) := (S c, Some "down") in
  let up (c : unit) (f : Int16Array) := (c, @None Error) in
  let chunks1 := [repeat Byte.x01 2450; repeat Byte.x02 2450] in
  let chunks2 := [repeat Byte.x01 1000; [];
                  repeat Byte.x01 1450 ++ repeat Byte.x02 2450] in
  concat chunks1 = concat chunks2 /\
  frames (snd (feed chunkSize chunkSize_pos nat always_down mood_text
                 {| audioBuffer := []; client := 0 |} chunks1))
  = frames (snd (feed chunkSize chunkSize_pos unit up advanced_mood_text
                   {| audioBuffer := []; client := tt |} chunks2)) /\
  audioBuffer (fst (feed chunkSize chunkSize_pos nat always_down mood_text
                      {| audioBuffer := []; client := 0 |} chunks1))
  = audioBuffer (fst (feed chunkSize chunkSize_pos unit up
                        advanced_mood_text
                        {| audioBuffer := []; client := tt |} chunks2)).
Proof.
  intros always_down up chunks1 chunks2.
  assert (H : concat chunks1 = concat chunks2) by (vm_compute; reflexivity).
  split; [exact H|].
  exact (framing_ignores_chunk_boundaries nat unit always_down up
           mood_text advanced_mood_text 0 tt chunks1 chunks2 H).
Defined.

(** X2.  Over any run of ['data'] events, from any buffer, the client ends
    in the state that calling [appendInputAudio] on the frames, one after
    the other in the order they were cut, leaves: each send acts on the
    state the send before left, whether that one threw or not. *)
Theorem sends_follow_each_other (ClientState : Type)
  (appendInputAudio : ClientState -> Int16Array -> ClientState * option Error)
  (text : FramerText) (st : FramerState ClientState)
  (chunks : list Buffer) :
  let r := feed chunkSize chunkSize_pos ClientState appendInputAudio text
                st chunks in
  client (fst r) = delivered appendInputAudio (client st) (frames (snd r)).
Proof.
  apply (feed_sequences chunkSize chunkSize_pos ClientState appendInputAudio
           text chunks st).
Qed.

(** X3.  Over any run of ['data'] events the listener calls
    [console.error] once for each frame whose send threw and never
    otherwise. *)
Theorem each_failed_send_is_logged_once (ClientState : Type)
  (appendInputAudio : ClientState -> Int16Array -> ClientState * option Error)
  (text : FramerText) (st : FramerState ClientState)
  (chunks : list Buffer) :
  let r := feed chunkSize chunkSize_pos ClientState appendInputAudio text
                st chunks in
  errors_logged (snd r) = length (failed_frames (snd r)).
Proof.
  apply (feed_sequences chunkSize chunkSize_pos ClientState appendInputAudio
           text chunks st).
Qed.

(** X4.  A ['data'] event that leaves less than [chunkSize] bytes in hand
    (an empty chunk on an empty buffer, say) sends nothing: it prints the
    length of the chunk, appends the chunk to the buffer and leaves the
    client alone. *)
Theorem short_chunk_is_only_buffered (ClientState : Type)
  (appendInputAudio : ClientState -> Int16Array -> ClientState * option Error)
  (text : FramerText) (st : FramerState ClientState) (data : Buffer) :
  length (audioBuffer st) + length data < chunkSize ->
  on_data chunkSize chunkSize_pos ClientState appendInputAudio text st data
  = ({| audioBuffer := audioBuffer st ++ data; client := client st |},
     [ConsoleLog [Text (received_before text ++ decimal (length data)
                        ++ received_after text)%string]]).
Proof. apply on_data_short. Qed.

Lemma short_chunk_is_only_buffered_witness :
  let down (c : nat) (f : Int16Array) := (S c, Some "down") in
  length [Byte.x01] + length [Byte.x02; Byte.x03] < chunkSize /\
  voice_assistant_on_data nat down
    {| audioBuffer := [Byte.x01]; client := 7 |} [Byte.x02; Byte.x03]
  = ({| audioBuffer := [Byte.x01; Byte.x02; Byte.x03]; client := 7 |},
     [ConsoleLog [Text "Received audio data chunk (2 bytes)."]]).
Proof.
  intros down.
  assert (H : length [Byte.x01] + length [Byte.x02; Byte.x03] < chunkSize).
  { vm_compute. lia. }
  split; [exact H|].
  unfold voice_assistant_on_data.
  rewrite (short_chunk_is_only_buffered nat down voice_assistant_text
             {| audioBuffer := [Byte.x01]; client := 7 |}
             [Byte.x02; Byte.x03] H).
  reflexivity.
Defined.

(** X5.  From the empty buffer, the [k]-th frame handed to the client
    (counting from 0) views bytes [k * chunkSize] up to
    [(k + 1) * chunkSize] of all the bytes delivered, as 2400 samples. *)
Theorem frame_views_its_slice (ClientState : Type)
  (appendInputAudio : ClientState -> Int16Array -> ClientState * option Error)
  (text : FramerText) (c0 : ClientState) (chunks : list Buffer)
  (k : nat) (f : Int16Array) :
  nth_error
    (frames (snd (feed chunkSize chunkSize_pos ClientState appendInputAudio
                    text {| audioBuffer := []; client := c0 |} chunks)))
    k = Some f ->
  bytes f = firstn chunkSize (skipn (k * chunkSize) (concat chunks)) /\
  length16 f = 2400.
Proof.
  intros Hk.
  destruct (feed_splits chunkSize chunkSize_pos chunkSize_even ClientState
              appendInputAudio text chunks
              {| audioBuffer := []; client := c0 |} chunkSize_pos)
    as (Hcat & Hall & _).
  cbn [audioBuffer app] in Hcat.
  destruct (framed_slice chunkSize _ _ _ k f Hall Hcat Hk) as [Hb Hs].
  split; [exact Hb|]. rewrite Hs. vm_compute. reflexivity.
Qed.

Lemma frame_views_its_slice_witness :
  let up (c : unit) (f : Int16Array) := (c, @None Error) in
  let chunks := [repeat Byte.x01 2450; repeat Byte.x02 2450] in
  let f := {| bytes := repeat Byte.x01 2450 ++ repeat Byte.x02 2350;
              length16 := 2400 |} in
  nth_error
    (frames (snd (feed chunkSize chunkSize_pos unit up mood_text
                    {| audioBuffer := []; client := tt |} chunks)))
    0 = Some f /\
  bytes f = firstn chunkSize (skipn (0 * chunkSize) (concat chunks)) /\
  length16 f = 2400.
Proof.
  intros up chunks f.
  assert (H : nth_error
                (frames (snd (feed chunkSize chunkSize_pos unit up mood_text
                                {| audioBuffer := []; client := tt |}
                                chunks)))
                0 = Some f) by (vm_compute; reflexivity).
  split; [exact H|].
  exact (frame_views_its_slice unit up mood_text tt chunks 0 f H).
Defined.

(** ** Tool handlers, continued *)

Section ToolHandlerMore.

Context {R : Runtime}.

(** X7.  [action_handler] does not tell apart spellings that differ in
    the case of their letters: two strings with the same lower-cased form
    call the same functions and return the same payload. *)
Theorem action_handler_ignores_case (s t : string) :
  toLowerCase s = toLowerCase t ->
  calls (fst (AdvancedMood.action_handler (Str s)))
    = calls (fst (AdvancedMood.action_handler (Str t))) /\
  snd (AdvancedMood.action_handler (Str s))
    = snd (AdvancedMood.action_handler (Str t)).
Proof.
  intros Hst.
  assert (Hempty : (s =? "") = (t =? "")).
  { destruct (String.eqb_spec s "") as [->|Hs];
      destruct (String.eqb_spec t "") as [->|Ht]; try reflexivity.
    - exfalso. apply Ht. apply toLowerCase_nonempty.
      rewrite <- Hst. apply toLowerCase_empty_string.
    - exfalso. apply Hs. apply toLowerCase_nonempty.
      rewrite Hst. apply toLowerCase_empty_string. }
  assert (Hn : AdvancedMood.normalized (Str s)
               = AdvancedMood.normalized (Str t)).
  { rewrite !advanced_normalized_Str, Hempty, Hst. reflexivity. }
  unfold AdvancedMood.action_handler. cbn [ToString]. rewrite Hn.
  destruct (AdvancedMood.normalized (Str t)); split; reflexivity.
Qed.

(** X8.  Called with any string, [action_handler] calls at most one of
    the script's functions: the one its switch has a [case] for under the
    lower-cased string, as [String.prototype.toLowerCase] gives it, and
    none when there is no such [case]. *)
Theorem action_handler_calls_the_registered_function (s : string) :
  calls (fst (AdvancedMood.action_handler (Str s)))
    = match registered (toLowerCase s) with
      | Some fn => [fn]
      | None => []
      end /\
  length (calls (fst (AdvancedMood.action_handler (Str s)))) <= 1.
Proof.
  assert (H : calls (fst (AdvancedMood.action_handler (Str s)))
              = match registered (toLowerCase s) with
                | Some fn => [fn]
                | None => []
                end).
  { unfold AdvancedMood.action_handler. cbn [ToString].
    rewrite advanced_normalized_Str. cbn [fst calls].
    destruct (String.eqb_spec s "") as [->|_].
    - rewrite toLowerCase_empty_string. reflexivity.
    - unfold AdvancedMood.dispatch, registered.
      repeat match goal with
             | |- context [toLowerCase s =? ?k] =>
                 destruct (toLowerCase s =? k); [reflexivity|]
             end.
      reflexivity. }
  split; [exact H|]. rewrite H.
  destruct (registered (toLowerCase s)); cbn [length]; lia.
Qed.

(** X9.  An argument that is not a string.  When it is falsy
    ([undefined], [null], [false], [0]) the handlers treat it as absent
    and return their payload without calling a function.  When it is
    truthy ([true], a number other than 0, an array, an object) they
    throw, calling no function and returning no payload: at
    [toLowerCase], after their first line, when the template literal of
    that line could be evaluated, and before printing anything when it
    could not (an object with an own [toString] property). *)
Theorem non_string_arguments (v : Value) :
  is_string v = false ->
  if truthy v then
    (exists e, snd (AdvancedMood.action_handler v) = Throw e) /\
    calls (fst (AdvancedMood.action_handler v)) = [] /\
    fst (AdvancedMood.action_handler v)
      = match ToString v with
        | Return shown =>
            [ConsoleLog [Text ("Outil action_handler appelé avec action: "
                               ++ shown)%string]]
        | Throw _ => []
        end /\
    (exists e, snd (Mood.mood_handler v) = Throw e) /\
    calls (fst (Mood.mood_handler v)) = [] /\
    fst (Mood.mood_handler v)
      = match ToString v with
        | Return shown =>
            [ConsoleLog [Text ("Tool invoked with mood: " ++ shown)%string]]
        | Throw _ => []
        end
  else
    snd (AdvancedMood.action_handler v)
      = Return (Obj [("status", Str "processed"); ("action", Str "none")]) /\
    calls (fst (AdvancedMood.action_handler v)) = [] /\
    snd (Mood.mood_handler v)
      = Return (Obj [("status", Str "processed"); ("mood", v)]) /\
    calls (fst (Mood.mood_handler v)) = [].
Proof.
  intros Hv.
  unfold AdvancedMood.action_handler, Mood.mood_handler,
    AdvancedMood.normalized, Mood.normalizedMood.
  destruct v as [| |[]|n|s|l|o]; try discriminate Hv; cbn [truthy].
  - repeat split.
  - repeat split.
  - cbn [ToString call_toLowerCase fst snd calls].
    repeat split; eexists; reflexivity.
  - repeat split.
  - cbn [ToString]. destruct (negb (n =? 0)%Z).
    + cbn [call_toLowerCase fst snd calls].
      repeat split; eexists; reflexivity.
    + repeat split.
  - destruct (ToString (Arr l)) as [shown|e];
      cbn [call_toLowerCase fst snd calls];
      repeat split; eexists; reflexivity.
  - destruct (ToString (Obj o)) as [shown|e];
      cbn [call_toLowerCase fst snd calls];
      repeat split; eexists; reflexivity.
Qed.

(** X10.  The two [mood_handler]s call the same function for every
    string: [happy] when its lower-cased form is ["happy"], [sad] when it
    is ["sad"], none otherwise; the one of function_call_example.js
    answers with status ["done"] and the mood as received. *)
Theorem mood_handlers_agree (s : string) :
  calls (fst (Mood.mood_handler (Str s)))
    = (if toLowerCase s =? "happy" then ["happy"]
       else if toLowerCase s =? "sad" then ["sad"] else []) /\
  calls (fst (FunctionCallExample.mood_handler (Str s)))
    = calls (fst (Mood.mood_handler (Str s))) /\
  snd (FunctionCallExample.mood_handler (Str s))
    = Return (Obj [("status", Str "done"); ("mood", Str s)]).
Proof.
  destruct (mood_normalized_Str s) as [Hm Hf].
  unfold Mood.mood_handler, FunctionCallExample.mood_handler.
  cbn [ToString]. rewrite Hm, Hf. cbn [fst snd calls].
  unfold Mood.dispatch, FunctionCallExample.dispatch.
  destruct (toLowerCase s =? "happy"); [repeat split|].
  destruct (toLowerCase s =? "sad"); repeat split.
Qed.

End ToolHandlerMore.

Lemma action_handler_ignores_case_witness :
  @toLowerCase ascii_runtime "Yes" = @toLowerCase ascii_runtime "yES" /\
  calls (fst (@AdvancedMood.action_handler ascii_runtime (Str "Yes")))
    = calls (fst (@AdvancedMood.action_handler ascii_runtime (Str "yES"))) /\
  snd (@AdvancedMood.action_handler ascii_runtime (Str "Yes"))
    = snd (@AdvancedMood.action_handler ascii_runtime (Str "yES")).
Proof.
  split; [reflexivity|].
  apply (@action_handler_ignores_case ascii_runtime "Yes" "yES").
  reflexivity.
Defined.

(** An object with an own [toString] property makes the handlers throw
    before they print. *)
Lemma non_string_arguments_witness :
  let odd := Obj [("toString", Str "no function")] in
  is_string odd = false /\
  (exists e, snd (@AdvancedMood.action_handler ascii_runtime odd) = Throw e) /\
  calls (fst (@AdvancedMood.action_handler ascii_runtime odd)) = [] /\
  fst (@AdvancedMood.action_handler ascii_runtime odd) = [] /\
  (exists e, snd (@Mood.mood_handler ascii_runtime odd) = Throw e) /\
  calls (fst (@Mood.mood_handler ascii_runtime odd)) = [] /\
  fst (@Mood.mood_handler ascii_runtime odd) = [].
Proof.
  intros odd. split; [reflexivity|].
  exact (@non_string_arguments ascii_runtime odd eq_refl).
Defined.

(** A number makes them throw after their first line, in every runtime. *)
Lemma number_argument_throws_after_the_first_line (R : Runtime) :
  AdvancedMood.action_handler (Num 5)
  = ([ConsoleLog [Text "Outil action_handler appelé avec action: 5"]],
     Throw "TypeError: toLowerCase is not a function").
Proof.
  unfold AdvancedMood.action_handler. cbn [ToString].
  rewrite (NumberToString_safe 5) by (vm_compute; discriminate).
  reflexivity.
Qed.

(** ** Conversation reset, continued *)

Lemma lookup_assign_other (props : list (string * Value))
  (key other : string) (v : Value) :
  (other =? key) = false ->
  lookup (assign props key v) other = lookup props other.
Proof.
  intros Hne. apply String.eqb_neq in Hne.
  induction props as [|[k w] rest IH]; cbn [assign lookup].
  - destruct (String.eqb_spec key other) as [->|_];
      [exfalso; apply Hne; reflexivity | reflexivity].
  - destruct (String.eqb_spec k key) as [->|Hk]; cbn [lookup].
    + destruct (String.eqb_spec key other) as [->|_];
        [exfalso; apply Hne; reflexivity | reflexivity].
    + rewrite IH. reflexivity.
Qed.

Lemma assign_assign (props : list (string * Value)) (key : string)
  (v w : Value) :
  assign (assign props key v) key w = assign props key w.
Proof.
  induction props as [|[k u] rest IH]; cbn [assign].
  - rewrite String.eqb_refl. reflexivity.
  - destruct (k =? key) eqn:Hk; cbn [assign]; rewrite Hk; [reflexivity|].
    rewrite IH. reflexivity.
Qed.

(** The client after the listener has reset it. *)
Lemma reset_listener_state (completed_line reset_line : string)
  (cprops iprops : list (string * Value)) :
  is_function_call (Obj iprops) = true ->
  isArray (conversation_items (Obj cprops)) = true ->
  exists vprops,
    lookup cprops "conversation" = Obj vprops /\
    fst (fst (reset_on_function_call completed_line reset_line
                (Obj cprops) (Obj iprops)))
    = Obj (assign cprops "conversation"
             (Obj (assign vprops "items" (Arr [])))).
Proof.
  intros Hcall Hshape.
  destruct (items_array_shape cprops Hshape) as (vprops & elems & Hc & _).
  exists vprops. split; [exact Hc|].
  unfold reset_on_function_call, is_function_call in *. cbn [get] in *.
  rewrite Hcall, can_reset_is_the_shape, Hshape.
  unfold reset_items. cbn [get bind]. rewrite Hc. reflexivity.
Qed.

Lemma item_count_shape (client : Value) (n : nat) :
  item_count client = Some n -> isArray (conversation_items client) = true.
Proof.
  unfold item_count. destruct (conversation_items client); try discriminate.
  reflexivity.
Qed.

(** X11.  A reset replaces [client.conversation.items] and nothing else:
    every other property of the client, and every other property of the
    conversation object, reads as before. *)
Theorem reset_touches_only_items
  (cprops iprops : list (string * Value)) (n : nat) (key1 key2 : string) :
  item_count (Obj cprops) = Some n ->
  is_function_call (Obj iprops) = true ->
  (key1 =? "conversation") = false ->
  (key2 =? "items") = false ->
  let client' :=
    fst (fst (AdvancedMood.on_item_completed (Obj cprops) (Obj iprops))) in
  get client' key1 = get (Obj cprops) key1 /\
  (conversation <- get client' "conversation" ;; get conversation key2)
  = (conversation <- get (Obj cprops) "conversation" ;;
     get conversation key2).
Proof.
  intros Hcount Hcall Hk1 Hk2 client'.
  destruct (reset_listener_state
              "Appel de fonction terminé :"
              "Le contexte de conversation a été réinitialisé pour permettre de nouvelles interactions."
              cprops iprops Hcall (item_count_shape _ _ Hcount))
    as (vprops & Hc & Hstate).
  unfold client', AdvancedMood.on_item_completed. rewrite Hstate.
  cbn [get bind]. rewrite lookup_assign_same, Hc. cbn [get].
  rewrite !lookup_assign_other by assumption. auto.
Qed.

Lemma reset_touches_only_items_witness :
  let cprops :=
    [("sessionCreated", Bool true);
     ("conversation",
      Obj [("itemLookup", Obj [("item_1", Obj [("type", Str "message")])]);
           ("items", Arr [Obj [("type", Str "message")]])])] in
  let iprops := [("type", Str "function_call")] in
  let client' :=
    fst (fst (AdvancedMood.on_item_completed (Obj cprops) (Obj iprops))) in
  get client' "sessionCreated" = get (Obj cprops) "sessionCreated" /\
  (conversation <- get client' "conversation" ;;
   get conversation "itemLookup")
  = (conversation <- get (Obj cprops) "conversation" ;;
     get conversation "itemLookup").
Proof.
  intros cprops iprops.
  apply (reset_touches_only_items cprops iprops 1
           "sessionCreated" "itemLookup"); reflexivity.
Defined.

(** X12.  Resetting twice is resetting once: a second [function_call] item
    completed right after the first leaves the client as the first did. *)
Theorem reset_is_idempotent
  (cprops iprops jprops : list (string * Value)) (n : nat) :
  item_count (Obj cprops) = Some n ->
  is_function_call (Obj iprops) = true ->
  is_function_call (Obj jprops) = true ->
  let once :=
    fst (fst (AdvancedMood.on_item_completed (Obj cprops) (Obj iprops))) in
  fst (fst (AdvancedMood.on_item_completed once (Obj jprops))) = once.
Proof.
  intros Hcount Hi Hj once.
  set (cl := "Appel de fonction terminé :").
  set (rl := "Le contexte de conversation a été réinitialisé pour permettre de nouvelles interactions.").
  destruct (reset_listener_state cl rl cprops iprops Hi
              (item_count_shape _ _ Hcount))
    as (vprops & Hc & Hstate).
  unfold once, AdvancedMood.on_item_completed. fold cl rl. rewrite Hstate.
  set (vprops' := assign vprops "items" (Arr [])).
  set (cprops' := assign cprops "conversation" (Obj vprops')).
  assert (Hshape' : isArray (conversation_items (Obj cprops')) = true).
  { unfold conversation_items, cprops', vprops'. cbn [get bind].
    rewrite lookup_assign_same. cbn [get].
    rewrite lookup_assign_same. reflexivity. }
  destruct (reset_listener_state cl rl cprops' jprops Hj Hshape')
    as (vprops2 & Hc2 & Hstate2).
  rewrite Hstate2. unfold cprops' in Hc2 |- *.
  rewrite lookup_assign_same in Hc2. injection Hc2 as <-.
  unfold vprops'. rewrite !assign_assign. reflexivity.
Qed.

Lemma reset_is_idempotent_witness :
  let cprops :=
    [("conversation",
      Obj [("items", Arr [Obj [("type", Str "message")]])])] in
  let item := Obj [("type", Str "function_call")] in
  let once := fst (fst (AdvancedMood.on_item_completed (Obj cprops) item)) in
  fst (fst (AdvancedMood.on_item_completed once item)) = once.
Proof.
  intros cprops item.
  apply (reset_is_idempotent cprops [("type", Str "function_call")]
           [("type", Str "function_call")] 1); reflexivity.
Defined.

(** X13.  On a client object the listener of either script throws exactly
    when the event carries no item ([undefined] or [null], whose [type]
    cannot be read); it then prints nothing and leaves the client as it
    was.  For every other item, object or not, it returns normally. *)
Theorem reset_listener_throws_only_without_item
  (cprops : list (string * Value)) (item : Value) :
  match item with
  | Undefined | Null =>
      (exists e,
         AdvancedMood.on_item_completed (Obj cprops) item
         = (Obj cprops, [], Throw e)) /\
      (exists e,
         Mood.on_item_completed (Obj cprops) item
         = (Obj cprops, [], Throw e))
  | _ =>
      snd (AdvancedMood.on_item_completed (Obj cprops) item) = Return tt /\
      snd (Mood.on_item_completed (Obj cprops) item) = Return tt
  end.
Proof.
  unfold AdvancedMood.on_item_completed, Mood.on_item_completed.
  destruct item as [| |b|n|s|l|iprops];
    try (split; eexists; reflexivity); try (split; reflexivity).
  split; apply (reset_listener_cases _ _ cprops iprops).
Qed.

(** ** Connection attempts, continued *)

Lemma boot_succeeded (later : list (option Error)) :
  boot VoiceAssistant.main (None :: later) = VoiceAssistant.main None.
Proof. reflexivity. Qed.

(** X14.  Whatever the outcomes of the successive [connect] calls would
    be, the second script of mood.mjs tries up to its first success and no
    further: it arms one timer of 5000 ms for each failure before it, and
    starts the microphone stream once if an attempt succeeds and never
    otherwise. *)
Theorem retries_stop_at_the_first_success (outcomes : list (option Error)) :
  let t := boot VoiceAssistant.main outcomes in
  attempts t = upto_success outcomes /\
  delays t
    = repeat 5000%Z
        (length (filter (fun o => negb (succeeded o))
                        (upto_success outcomes))) /\
  starts t = (if existsb succeeded outcomes then 1 else 0).
Proof.
  induction outcomes as [|[e|] later (Ha & Hd & Hs)].
  - repeat split.
  - cbv zeta. rewrite boot_failed, attempts_app, delays_app, starts_app,
      Ha, Hd, Hs.
    cbn [VoiceAssistant.main attempts delays starts upto_success filter
         succeeded negb existsb orb app length repeat Nat.add].
    repeat split.
  - cbv zeta. rewrite boot_succeeded. repeat split.
Qed.

(** ** Playback, continued *)

Lemma speakers_after_response (p : Playback) (audioData : Int16Array) :
  exists sp,
    speakers (playback_step p (ResponseAudio audioData)) = closed p ++ [sp] /\
    piped sp = match speaker p with
               | Some old => piped old
               | None => []
               end ++ [bytes audioData] /\
    close_listeners sp = S match speaker p with
                           | Some old => close_listeners old
                           | None => 0
                           end.
Proof.
  unfold speakers, playback_step, playAudio. cbn [speaker closed].
  destruct (speaker p) as [old|]; cbn; eauto.
Qed.

Lemma speakers_after_close (p : Playback) :
  speakers (playback_step p SpeakerClose) = speakers p /\
  speaker (playback_step p SpeakerClose) = None.
Proof.
  unfold speakers, playback_step. cbn [speaker closed].
  destruct (speaker p) as [old|]; cbn [on_close fst];
    rewrite ?app_nil_r; auto.
Qed.

Lemma responses_are_piped (events : list PlaybackEvent) :
  forall p : Playback,
    concat (map piped (speakers (fold_left playback_step events p)))
    = concat (map piped (speakers p)) ++ responses events.
Proof.
  induction events as [|ev events IH]; intros p; cbn [fold_left responses].
  - rewrite app_nil_r. reflexivity.
  - rewrite IH. destruct ev as [audioData|].
    + destruct (speakers_after_response p audioData) as (sp & -> & Hp & _).
      unfold speakers. rewrite !map_app, !concat_app. cbn [map concat].
      rewrite Hp, app_nil_r, <- !app_assoc.
      destruct (speaker p) as [old|]; cbn [map concat app];
        rewrite ?app_nil_r; reflexivity.
    + destruct (speakers_after_close p) as [-> _]. reflexivity.
Qed.

(** X15.  Over any sequence of responses and speaker closes, the streams
    piped into the speakers, taken speaker after speaker, are the audio of
    the responses in the order they arrived: no response is dropped, piped
    twice or moved. *)
Theorem every_response_is_piped_once_in_order
  (events : list PlaybackEvent) :
  concat (map piped (speakers (playback_run events))) = responses events.
Proof.
  unfold playback_run. rewrite responses_are_piped. reflexivity.
Qed.

Lemma listeners_match_streams (events : list PlaybackEvent) :
  forall p : Playback,
    Forall (fun sp => close_listeners sp = length (piped sp)) (speakers p) ->
    Forall (fun sp => close_listeners sp = length (piped sp))
           (speakers (fold_left playback_step events p)).
Proof.
  induction events as [|ev events IH]; intros p Hp; [exact Hp|].
  cbn [fold_left]. apply IH. destruct ev as [audioData|].
  - destruct (speakers_after_response p audioData) as (sp & -> & Hs & Hl).
    unfold speakers in Hp. apply Forall_app in Hp. destruct Hp as [Hc Hcur].
    apply Forall_app. split; [exact Hc|]. constructor; [|constructor].
    rewrite Hl, Hs, length_app. cbn [length].
    destruct (speaker p) as [old|].
    + rewrite (Forall_inv Hcur). lia.
    + reflexivity.
  - destruct (speakers_after_close p) as [-> _]. exact Hp.
Qed.

(** X16.  [playAudio] adds a ['close'] listener at each call, also on a
    speaker that has one already: over any sequence of responses and
    closes every speaker has as many listeners as streams piped into it,
    and prints its closing line that many times when it closes. *)
Theorem one_close_listener_per_response (events : list PlaybackEvent) :
  Forall (fun sp =>
            close_listeners sp = length (piped sp) /\
            length (snd (on_close (Some sp))) = length (piped sp))
         (speakers (playback_run events)).
Proof.
  eapply Forall_impl;
    [|apply (listeners_match_streams events); constructor].
  intros sp Hsp. split; [exact Hsp|].
  cbn [on_close snd]. rewrite repeat_length. exact Hsp.
Qed.

(** X17.  After the speaker has closed, whatever came before, no speaker
    is in use, and the next response plays on a new speaker that holds
    that response alone. *)
Theorem a_close_frees_the_speaker (events : list PlaybackEvent)
  (audioData : Int16Array) :
  speaker (playback_run (events ++ [SpeakerClose])) = None /\
  speaker (playback_run (events ++ [SpeakerClose; ResponseAudio audioData]))
    = Some {| piped := [bytes audioData]; close_listeners := 1 |}.
Proof.
  unfold playback_run. rewrite !fold_left_app. cbn [fold_left].
  set (p := fold_left playback_step events _).
  destruct (speakers_after_close p) as [_ Hnone].
  split; [exact Hnone|].
  unfold playback_step at 1. cbn [speaker]. rewrite Hnone. reflexivity.
Qed.
